(** * Zendesk audit-log connector: fetch client and collection pass

    A shallow embedding of [grove/connectors/zendesk/api.py] (class
    [Client]) and [grove/connectors/zendesk/audit_logs.py] (class
    [Connector]), with the properties of their specification stated and
    settled against that embedding.

    Layout of the file:
    - the Python library functions the two modules call ([str], [int],
      [base64.b64encode], [datetime.strftime], [dict.get]);
    - the world the code runs in: scripted HTTP replies, a clock, the
      pointer store and the sink, and the trace of the calls made;
    - a state-and-exception monad and a [while True] combinator;
    - [Client.__init__], [Client._get], [Client.get_audit_logs] and
      [Connector.collect];
    - the vocabulary of the properties and the concrete worlds used as
      examples;
    - lemmas on the loops, on the client and on whole passes, then one
      theorem for each property of the specification. *)

From Stdlib Require Import ZArith Lia Ascii String.
From stdpp Require Import base option list strings gmap fin_maps.

Local Open Scope string_scope.
Local Open Scope Z_scope.
Local Open Scope list_scope.

(** ** Python built-ins used by the connector *)

Module Py.

(** [str(x)] inside an f-string, for an [Optional[str]] argument. *)
Definition str_of (x : option string) : string :=
  match x with
  | Some s => s
  | None => "None"
  end.

(** The argument of [int()] in [_get] is the value of a response
    header.  The HTTP layer decodes header lines as ISO-8859-1, so a
    character of such a [str] is a code point below 256, held here as
    one [ascii].

    The characters that [int()] skips around a literal: tab, line feed,
    vertical tab, form feed, carriage return and space, and the two
    white-space characters above 127, next line (U+0085) and no-break
    space (U+00A0), which [int()] first turns into spaces.  The
    separators U+001C to U+001F are not skipped. *)
Definition isspace (c : ascii) : bool :=
  let n := nat_of_ascii c in
  ((9 <=? n) && (n <=? 13) || (n =? 32) || (n =? 133) || (n =? 160))%nat.

Definition isdigit (c : ascii) : bool :=
  let n := nat_of_ascii c in ((48 <=? n) && (n <=? 57))%nat.

Definition digit_val (c : ascii) : Z := Z.of_nat (nat_of_ascii c) - 48.

Fixpoint lstrip (s : list ascii) : list ascii :=
  match s with
  | c :: s' => if isspace c then lstrip s' else s
  | [] => []
  end.

Definition strip (s : list ascii) : list ascii :=
  rev (lstrip (rev (lstrip s))).

(** The digit part of an integer literal: decimal digits, with single
    underscores allowed between two digits.  [acc] is the value read so
    far, [after_digit] tells whether the previous character was a
    digit. *)
Fixpoint digits (after_digit : bool) (acc : Z) (s : list ascii) : option Z :=
  match s with
  | [] => if after_digit then Some acc else None
  | c :: s' =>
      if isdigit c then digits true (10 * acc + digit_val c) s'
      else if Ascii.eqb c "_" then
             if after_digit then digits false acc s' else None
           else None
  end.

(** The interpreter's default cap on the number of digits of a decimal
    literal ([sys.get_int_max_str_digits()]); the connector does not
    change it. *)
Definition max_str_digits : nat := 4300.

(** The digit part of a literal, refused when it has more digits than
    the cap; underscores do not count. *)
Definition literal (s : list ascii) : option Z :=
  if (length (List.filter isdigit s) <=? max_str_digits)%nat
  then digits false 0 s
  else None.

(** [int(s)] for a [str] argument in base 10, [s] being a string of
    code points below 256: [None] stands for [ValueError].  No such
    code point other than the ASCII digits is a decimal digit. *)
Definition int (s : string) : option Z :=
  match strip (list_ascii_of_string s) with
  | "+"%char :: ds => literal ds
  | "-"%char :: ds => Z.opp <$> literal ds
  | ds => literal ds
  end.

(** Decimal rendering of a natural number on at least [width] digits,
    as the [%02d] and [%04d] fields of [strftime] print it. *)
Fixpoint decimal (width : nat) (n : Z) : list ascii :=
  match width with
  | O => []
  | S w => decimal w (n / 10) ++ [ascii_of_nat (48 + Z.to_nat (n mod 10))]
  end.

Definition lower (c : ascii) : ascii :=
  let n := nat_of_ascii c in
  if ((65 <=? n) && (n <=? 90))%nat then ascii_of_nat (n + 32) else c.

Definition lower_str (s : string) : string :=
  string_of_list_ascii (map lower (list_ascii_of_string s)).

End Py.

(** ** [base64.b64encode] *)

Module Base64.

Definition alphabet : list ascii :=
  list_ascii_of_string
    "ABCDEFGHIJKLMNOPQRSTUVWXYZabcdefghijklmnopqrstuvwxyz0123456789+/".

Definition sextet (n : Z) : ascii :=
  nth (Z.to_nat (n mod 64)) alphabet "="%char.

Definition byte (c : ascii) : Z := Z.of_nat (nat_of_ascii c).

Fixpoint encode (bs : list ascii) : list ascii :=
  match bs with
  | [] => []
  | [a] =>
      let n := byte a * 65536 in
      [sextet (n / 262144); sextet (n / 4096); "="%char; "="%char]
  | [a; b] =>
      let n := byte a * 65536 + byte b * 256 in
      [sextet (n / 262144); sextet (n / 4096); sextet (n / 64); "="%char]
  | a :: b :: c :: rest =>
      let n := byte a * 65536 + byte b * 256 + byte c in
      sextet (n / 262144) :: sextet (n / 4096) :: sextet (n / 64)
        :: sextet n :: encode rest
  end.

(** [str(base64.b64encode(bytes(s, "utf-8")), "utf-8")]: a [string] is
    already its UTF-8 byte sequence. *)
Definition b64encode (s : string) : string :=
  string_of_list_ascii (encode (list_ascii_of_string s)).

End Base64.

(** ** [datetime] *)

Module Datetime.

(** A [datetime] is held as the number of seconds since
    1970-01-01T00:00:00.  The microsecond field is left out: whole
    days are subtracted and [DATESTAMP_FORMAT] has no [%f]. *)
Definition datetime := Z.

Definition timedelta (days : Z) : Z := days * 86400.

(** Proleptic Gregorian date of a day number counted from 1970-01-01. *)
Definition civil_from_days (z : Z) : Z * Z * Z :=
  let z := z + 719468 in
  let era := z / 146097 in
  let doe := z - era * 146097 in
  let yoe := (doe - doe / 1460 + doe / 36524 - doe / 146096) / 365 in
  let doy := doe - (365 * yoe + yoe / 4 - yoe / 100) in
  let mp := (5 * doy + 2) / 153 in
  let d := doy - (153 * mp + 2) / 5 + 1 in
  let m := if mp <? 10 then mp + 3 else mp - 9 in
  let y := yoe + era * 400 + (if m <=? 2 then 1 else 0) in
  (y, m, d).

(** [dt.strftime("%Y-%m-%dT%H:%M:%SZ")]. *)
Definition strftime (dt : datetime) : string :=
  let '(y, m, d) := civil_from_days (dt / 86400) in
  let s := dt mod 86400 in
  string_of_list_ascii
    (Py.decimal 4 y ++ "-"%char :: Py.decimal 2 m ++ "-"%char :: Py.decimal 2 d
       ++ "T"%char :: Py.decimal 2 (s / 3600) ++ ":"%char
       :: Py.decimal 2 (s / 60 mod 60) ++ ":"%char
       :: Py.decimal 2 (s mod 60) ++ ["Z"%char]).

End Datetime.

(** ** Values decoded from JSON

    [response.json()] yields Python values; the connector only looks at
    the top-level dictionary and passes everything else through.  [JNull]
    is Python's [None].  Numbers that are not integers do not occur in
    what the connector inspects and are not represented. *)

#[warnings="-register-all"] Inductive Json : Type :=
| JNull
| JBool (b : bool)
| JNum (n : Z)
| JStr (s : string)
| JArr (items : list Json)
| JObj (fields : gmap string Json).

(** An [Optional[str]] seen as a Python value. *)
Definition of_opt_str (x : option string) : Json :=
  match x with
  | Some s => JStr s
  | None => JNull
  end.

(** ** HTTP *)

(** What [requests] hands back for one GET.  [resp_headers] is the
    case-insensitive header dictionary, held under lower-cased names;
    the characters of a header value are the octets of the header line
    (its ISO-8859-1 decoding).  [resp_json] is the result of
    [response.json()], [None] when the body does not decode. *)
Record Response := mkResponse {
  status_code : Z;
  resp_headers : gmap string string;
  resp_json : option Json
}.

(** [headers.get(name, default)] on a [CaseInsensitiveDict]. *)
Definition headers_get (h : gmap string string) (name dflt : string) : string :=
  default dflt (h !! Py.lower_str name).

(** [response.raise_for_status()]: an [HTTPError] carrying the response
    for 4xx and 5xx statuses, nothing otherwise. *)
Definition raise_for_status (r : Response) : option Response :=
  if (400 <=? status_code r) && (status_code r <? 600) then Some r else None.

(** [grove.types.HTTPResponse] and [grove.types.AuditLogEntries]. *)
Module Types.

Record HTTPResponse := mkHTTPResponse {
  headers : gmap string string;
  body : Json
}.

Record AuditLogEntries := mkAuditLogEntries {
  cursor : Json;
  entries : Json
}.

End Types.

(** [grove.exceptions] and the built-in exceptions that can leave the
    two modules.  [TransportError] stands for whatever [requests.get]
    itself raises (connection failure, invalid URL, ...): none of those
    is an [HTTPError].  [OverflowError] and [OSError] are raised by
    [time.sleep].  [Diverged] marks a loop that was cut off; it is
    shown below never to come out of [_get] or [collect]. *)
Inductive Exn : Type :=
| RateLimitException (err : Response)
| RequestFailedException (err : Response)
| NotFoundException
| ValueError
| OverflowError
| OSError
| AttributeError
| JSONDecodeError
| TransportError (what : string)
| Diverged.

Inductive Outcome (A : Type) : Type :=
| Ok (a : A)
| Raise (e : Exn).
Arguments Ok {A} a.
Arguments Raise {A} e.

(** ** The world *)

Inductive Level := DEBUG | WARNING.

(** Calls that reach outside the two modules, in the order made. *)
Inductive Event : Type :=
| EGet (url : string) (hdrs : gmap string string)
       (params : option (gmap string (option string)))
| ESleep (secs : Z)
| ELog (lvl : Level) (msg : string) (extra : gmap string Json)
| ESave (batch : Json).

(** What one call of [requests.get] does: return a response, or raise. *)
Inductive Reply : Type :=
| Answer (r : Response)
| Fault (what : string).

(** Modelled from the spec: the watermark store and the sink of
    [grove.connectors.BaseConnector], which is not part of the sources
    at hand.  The store "exposes get/set of a single string value";
    "not found" is [None].  The sink keeps the batches it was given. *)
Record Store := mkStore {
  pointer : option string;
  sink : list Json
}.

(** [longest_sleep] is the longest sleep, in seconds, that the
    platform's timer takes; it is taken as fixed for the length of a
    run. *)
Record World := mkWorld {
  replies : list Reply;
  clock : nat -> Datetime.datetime;
  ticks : nat;
  longest_sleep : Z;
  store : Store;
  trace : list Event
}.

Definition set_replies (rs : list Reply) (w : World) : World :=
  mkWorld rs (clock w) (ticks w) (longest_sleep w) (store w) (trace w).

Definition set_ticks (n : nat) (w : World) : World :=
  mkWorld (replies w) (clock w) n (longest_sleep w) (store w) (trace w).

Definition set_store (s : Store) (w : World) : World :=
  mkWorld (replies w) (clock w) (ticks w) (longest_sleep w) s (trace w).

Definition emit (e : Event) (w : World) : World :=
  mkWorld (replies w) (clock w) (ticks w) (longest_sleep w) (store w)
    (trace w ++ [e]).

(** ** State and exceptions *)

Definition M (A : Type) : Type := World -> Outcome A * World.

Definition ret {A} (a : A) : M A := fun w => (Ok a, w).

Definition raise {A} (e : Exn) : M A := fun w => (Raise e, w).

Definition bind {A B} (m : M A) (k : A -> M B) : M B :=
  fun w =>
    match m w with
    | (Ok a, w') => k a w'
    | (Raise e, w') => (Raise e, w')
    end.

Notation "x <- m ;; k" := (bind m (fun x => k))
  (at level 100, m at next level, right associativity).
Notation "m ;; k" := (bind m (fun _ => k))
  (at level 100, right associativity).

(** [try: m except E: h]: [handler] picks the exceptions it catches. *)
Definition try_except {A} (m : M A) (handler : Exn -> option (M A)) : M A :=
  fun w =>
    match m w with
    | (Raise e, w') =>
        match handler e with
        | Some h => h w'
        | None => (Raise e, w')
        end
    | r => r
    end.

(** [while True:] with one loop-carried variable.  Every turn of the two
    loops below that goes round again has consumed a reply, so the
    number of replies still scripted bounds the number of turns. *)
Inductive Ctl (St A : Type) : Type :=
| Continue (s : St)
| Break (a : A).
Arguments Continue {St A} s.
Arguments Break {St A} a.

Fixpoint iterate {St A} (fuel : nat) (body : St -> M (Ctl St A)) (s : St) : M A :=
  match fuel with
  | O => raise Diverged
  | S fuel' =>
      c <- body s ;;
      match c with
      | Continue s' => iterate fuel' body s'
      | Break a => ret a
      end
  end.

Definition while_true {St A} (body : St -> M (Ctl St A)) (s : St) : M A :=
  fun w => iterate (S (length (replies w))) body s w.

(** ** Primitive effects *)

(** [requests.get(url, headers=..., params=...)].  The call is recorded,
    then the next scripted reply decides its outcome; a script that has
    run out answers with a transport failure.  A [url] that is not a
    [str] is rejected by [requests] before anything is sent. *)
Definition requests_get (url : Json) (hdrs : gmap string string)
    (params : option (gmap string (option string))) : M Response :=
  match url with
  | JStr u =>
      fun w =>
        let w := emit (EGet u hdrs params) w in
        match replies w with
        | Answer r :: rs => (Ok r, set_replies rs w)
        | Fault what :: rs => (Raise (TransportError what), set_replies rs w)
        | [] => (Raise (TransportError "no reply"), w)
        end
  | _ => raise (TransportError "invalid url")
  end.

(** [response.json()]. *)
Definition response_json (r : Response) : M Json :=
  match resp_json r with
  | Some j => ret j
  | None => raise JSONDecodeError
  end.

(** [int(s)]. *)
Definition int (s : string) : M Z :=
  match Py.int s with
  | Some n => ret n
  | None => raise ValueError
  end.

(** The longest length, in seconds, that [time.sleep] can convert to
    its 64-bit count of nanoseconds. *)
Definition SLEEP_MAX : Z := 9223372036.

(** What [time.sleep(secs)] raises for an [int] argument, if anything:
    [OverflowError] when the length does not convert, [ValueError] when
    it is negative, [OSError] when the timer of the platform, which
    takes lengths up to [limit], refuses it. *)
Definition sleep_error (limit secs : Z) : option Exn :=
  if (secs <? - SLEEP_MAX) || (SLEEP_MAX <? secs) then Some OverflowError
  else if secs <? 0 then Some ValueError
  else if limit <? secs then Some OSError
  else None.

(** [time.sleep(secs)]. *)
Definition time_sleep (secs : Z) : M unit :=
  fun w =>
    match sleep_error (longest_sleep w) secs with
    | Some e => (Raise e, w)
    | None => (Ok tt, emit (ESleep secs) w)
    end.

Definition logger_log (lvl : Level) (msg : string) (extra : gmap string Json) : M unit :=
  fun w => (Ok tt, emit (ELog lvl msg extra) w).

(** [datetime.utcnow()]: the next reading of the clock. *)
Definition utcnow : M Datetime.datetime :=
  fun w => (Ok (clock w (ticks w)), set_ticks (S (ticks w)) w).

(** [body.get(key, default)] on the decoded body: only a dictionary has
    a [get]. *)
Definition dict_get (d : Json) (key : string) (dflt : Json) : M Json :=
  match d with
  | JObj fields => ret (default dflt (fields !! key))
  | _ => raise AttributeError
  end.

(** Reading [self.pointer]. *)
Definition pointer_get : M string :=
  fun w =>
    match pointer (store w) with
    | Some p => (Ok p, w)
    | None => (Raise NotFoundException, w)
    end.

(** Assigning [self.pointer]. *)
Definition pointer_set (v : string) : M unit :=
  fun w => (Ok tt, set_store (mkStore (Some v) (sink (store w))) w).

(** Modelled from the spec: a sink that "receives an ordered batch of
    opaque log records per page" and leaves the watermark alone. *)
Definition sink_save (batch : Json) (s : Store) : Store :=
  mkStore (pointer s) (sink s ++ [batch]).

(** ** [grove/connectors/zendesk/api.py] *)

Definition API_BASE_URI (identity : string) : string :=
  "https://" +:+ identity +:+ ".zendesk.com".

Record Client := mkClient {
  retry : bool;
  headers : gmap string string;
  _api_base_uri : string
}.

(** [Client.__init__].  [retry_arg] is [None] when the caller leaves the
    keyword out, and the default [True] applies. *)
Definition Client__init__ (identity username token : option string)
    (retry_arg : option bool) : Client :=
  let basic_auth :=
    Base64.b64encode (Py.str_of username +:+ "/token:" +:+ Py.str_of token) in
  {| retry := default true retry_arg;
     headers :=
       <["Authorization" := "Basic " +:+ basic_auth]>
         (<["Accept" := "application/json"]> ∅);
     _api_base_uri := API_BASE_URI (Py.str_of identity) |}.

(** One turn of the [while True] loop of [Client._get]. *)
Definition _get_turn (self : Client) (url : Json)
    (params : option (gmap string (option string))) (_ : unit)
  : M (Ctl unit Response) :=
  response <- requests_get url (headers self) params ;;
  match raise_for_status response with
  | None => ret (Break response)
  | Some err =>
      if status_code err =? 429 then
        logger_log WARNING "Rate-limit was exceeded during request" ∅ ;;
        if retry self then
          secs <- int (headers_get (resp_headers err) "Retry-After" "1") ;;
          time_sleep secs ;;
          ret (Continue tt)
        else raise (RateLimitException err)
      else raise (RequestFailedException err)
  end.

(** [Client._get]. *)
Definition _get (self : Client) (url : Json)
    (params : option (gmap string (option string))) : M Types.HTTPResponse :=
  response <- while_true (_get_turn self url params) tt ;;
  decoded <- response_json response ;;
  ret (Types.mkHTTPResponse (resp_headers response) decoded).

(** The [params] dictionary literal of [get_audit_logs]: two entries
    written under one key. *)
Definition created_at_params (from_date to_date : option string)
  : gmap string (option string) :=
  <["filter[created_at][]" := to_date]>
    (<["filter[created_at][]" := from_date]> ∅).

(** [Client.get_audit_logs]. *)
Definition get_audit_logs (self : Client) (cursor : Json)
    (from_date to_date : option string) : M Types.AuditLogEntries :=
  let url := _api_base_uri self +:+ "/api/v2/audit_logs" in
  result <-
    match cursor with
    | JNull =>
        logger_log DEBUG "Collecting first page with provided"
          (<["to_date" := of_opt_str to_date]>
             (<["from_date" := of_opt_str from_date]> ∅)) ;;
        _get self (JStr url) (Some (created_at_params from_date to_date))
    | _ =>
        logger_log DEBUG "Collecting next page with provided cursor"
          (<["cursor" := cursor]> ∅) ;;
        _get self cursor None
    end ;;
  cursor <- dict_get (Types.body result) "next_page" JNull ;;
  let cursor := match cursor with JStr "" => JNull | _ => cursor end in
  entries <- dict_get (Types.body result) "audit_logs" (JArr []) ;;
  ret (Types.mkAuditLogEntries cursor entries).

(** ** [grove/connectors/zendesk/audit_logs.py] *)

(** The part of the connector's configuration that [collect] reads:
    [self.identity], [self.key] and [self.configuration.username], the
    last one possibly not set. *)
Record Connector := mkConnector {
  identity : string;
  key : string;
  configuration_username : option string
}.

(** The [username] property. *)
Definition username (self : Connector) : option string :=
  configuration_username self.

Section Collect.

(** What [BaseConnector.save] does to the store when handed a batch;
    [BaseConnector] is not part of the sources at hand. *)
Variable on_save : Json -> Store -> Store.

(** [self.save(entries)]. *)
Definition save (batch : Json) : M unit :=
  fun w => (Ok tt, emit (ESave batch) (set_store (on_save batch (store w)) w)).

(** One turn of the [while True] loop of [Connector.collect]. *)
Definition collect_turn (client : Client) (now : string) (cursor : Json)
  : M (Ctl Json unit) :=
  from_date <- pointer_get ;;
  log <- get_audit_logs client cursor (Some from_date) (Some now) ;;
  save (Types.entries log) ;;
  let cursor := Types.cursor log in
  match cursor with
  | JNull => ret (Break tt)
  | _ => ret (Continue cursor)
  end.

(** [Connector.collect]. *)
Definition collect (self : Connector) : M unit :=
  let client :=
    Client__init__ (Some (identity self)) (username self) (Some (key self))
      None in
  let cursor := JNull in
  t <- utcnow ;;
  let now := Datetime.strftime t in
  try_except (pointer_get ;; ret tt)
    (fun e =>
       match e with
       | NotFoundException =>
           Some (t' <- utcnow ;;
                 pointer_set (Datetime.strftime (t' - Datetime.timedelta 1)))
       | _ => None
       end) ;;
  while_true (collect_turn client now) cursor.

End Collect.

(** ** Vocabulary of the properties *)

(** A loop body that, whenever it asks for another turn, has used up a
    reply. *)
Definition consumes {St A} (body : St -> M (Ctl St A)) : Prop :=
  forall s w s' w',
    body s w = (Ok (Continue s'), w') ->
    (length (replies w') < length (replies w))%nat.

(** Projections of the trace: the batches handed to [save], the lengths
    slept, and the trace without its log records. *)
Definition batches (tr : list Event) : list Json :=
  omap (fun e => match e with ESave b => Some b | _ => None end) tr.

Definition sleeps (tr : list Event) : list Z :=
  omap (fun e => match e with ESleep n => Some n | _ => None end) tr.

Definition io (tr : list Event) : list Event :=
  omap (fun e => match e with ELog _ _ _ => None | _ => Some e end) tr.

(** The store after [save] was called on each batch in turn. *)
Definition deliver (on_save : Json -> Store -> Store) (s : Store)
    (bs : list Json) : Store :=
  foldl (fun s b => on_save b s) s bs.

(** [w'] is reached from [w] by some calls: the trace has grown, replies
    were taken from the front of the script, the clock is the same one
    and the store has seen exactly the batches that were saved. *)
Definition steps (on_save : Json -> Store -> Store) (w w' : World) : Prop :=
  exists tr used,
    trace w' = trace w ++ tr /\
    replies w = used ++ replies w' /\
    clock w' = clock w /\
    store w' = deliver on_save (store w) (batches tr).

(** An action all of whose runs are [steps]. *)
Definition stepping (on_save : Json -> Store -> Store) {A} (m : M A) : Prop :=
  forall w r w', m w = (r, w') -> steps on_save w w'.

(** The client that [collect] builds. *)
Definition client_of (self : Connector) : Client :=
  Client__init__ (Some (identity self)) (username self) (Some (key self)) None.

(** The [now] string of a pass started in world [w], and the pointer
    that is written when none is stored. *)
Definition pass_now (w : World) : string :=
  Datetime.strftime (clock w (ticks w)).

Definition lookback_seed (w : World) : string :=
  Datetime.strftime (clock w (S (ticks w)) - Datetime.timedelta 1).

(** The world in which the paging loop of a pass starts: the clock has
    been read, and the pointer has been seeded if there was none. *)
Definition started (w : World) : World :=
  match pointer (store w) with
  | Some _ => set_ticks (S (ticks w)) w
  | None =>
      set_store (mkStore (Some (lookback_seed w)) (sink (store w)))
        (set_ticks (S (S (ticks w))) w)
  end.

(** The URL of the first request of a pass. *)
Definition audit_logs_url (self : Client) : string :=
  _api_base_uri self +:+ "/api/v2/audit_logs".

(** A reply that is a page: [raise_for_status] lets it through and the
    body decodes to a dictionary with the given fields. *)
Definition is_page (r : Response) (fields : gmap string Json) : Prop :=
  raise_for_status r = None /\ resp_json r = Some (JObj fields).

(** The last page of a pass: [next_page] is absent, empty or null. *)
Definition terminal (fields : gmap string Json) : Prop :=
  fields !! "next_page" = None \/
  fields !! "next_page" = Some (JStr "") \/
  fields !! "next_page" = Some JNull.

(** The batch a page contributes: its [audit_logs] field, or the empty
    list when the field is missing. *)
Definition page_entries (fields : gmap string Json) : Json :=
  default (JArr []) (fields !! "audit_logs").

(** A script of pages: every page but the last carries the non-empty
    cursor listed for it, the last one is terminal. *)
Inductive paged : list Response -> list (gmap string Json) -> list string -> Prop :=
| paged_last r f :
    is_page r f -> terminal f -> paged [r] [f] []
| paged_more r f c rs fs cs :
    is_page r f -> f !! "next_page" = Some (JStr c) -> c <> "" ->
    paged rs fs cs -> paged (r :: rs) (f :: fs) (c :: cs).

(** [save] never removes the stored pointer. *)
Definition keeps_pointer (on_save : Json -> Store -> Store) : Prop :=
  forall b s, is_Some (pointer s) -> is_Some (pointer (on_save b s)).

(** [save] leaves the stored pointer as it is. *)
Definition leaves_pointer (on_save : Json -> Store -> Store) : Prop :=
  forall b s, pointer (on_save b s) = pointer s.

(** What a pass over a script of pages exchanges with the outside, logs
    aside: each request followed by the saving of the page it fetched. *)
Definition exchanges (requests : list Event) (pages : list (gmap string Json))
  : list Event :=
  mjoin (zip_with (fun q f => [q; ESave (page_entries f)]) requests pages).

(** The cursor [get_audit_logs] reports for a page. *)
Definition next_cursor (fields : gmap string Json) : Json :=
  let cursor := default JNull (fields !! "next_page") in
  match cursor with
  | JStr "" => JNull
  | _ => cursor
  end.

(** The requests of a trace, in order. *)
Definition gets (tr : list Event) : list Event :=
  omap (fun e => match e with EGet _ _ _ => Some e | _ => None end) tr.

(** The request that a turn of the paging loop sends for the cursor it
    holds, [p] being the stored pointer at that time. *)
Definition turn_request (client : Client) (now p : string) (cur : Json)
  : option Event :=
  match cur with
  | JNull =>
      Some (EGet (audit_logs_url client) (headers client)
              (Some (created_at_params (Some p) (Some now))))
  | JStr c => Some (EGet c (headers client) None)
  | _ => None
  end.

(** Exceptions other than a cut-off loop and a rate limit. *)
Definition benign (e : Exn) : Prop :=
  e <> Diverged /\ forall err, e <> RateLimitException err.

(** An action that raises nothing but [benign] exceptions. *)
Definition raises_benign {A} (m : M A) : Prop :=
  forall w e w', m w = (Raise e, w') -> benign e.

(** When the exception is a [RequestFailedException], the response it
    carries had a 4xx or 5xx status other than 429 and was the last
    reply taken from the script: nothing was requested after it. *)
Definition last_consumed (e : Exn) (w w' : World) : Prop :=
  forall r,
    e = RequestFailedException r ->
    (400 <= status_code r < 600 /\ status_code r <> 429) /\
    exists used, replies w = used ++ Answer r :: replies w'.

(** An action whose failed requests end it on the spot. *)
Definition aborting {A} (m : M A) : Prop :=
  forall w e w', m w = (Raise e, w') -> last_consumed e w w'.

(** The query string [requests] builds from [params], as a list of
    name/value pairs: an entry whose value is [None] is left out. *)
Definition query_pairs (params : option (gmap string (option string)))
  : list (string * string) :=
  match params with
  | Some m => omap (fun kv => pair (fst kv) <$> snd kv) (map_to_list m)
  | None => []
  end.

(** The trace of one retried request: the request, the warning, the
    sleep. *)
Definition retry_round (self : Client) (u : string)
    (params : option (gmap string (option string))) (secs : Z) : list Event :=
  [EGet u (headers self) params;
   ELog WARNING "Rate-limit was exceeded during request" ∅;
   ESleep secs].

(** A 429 reply that asks for [secs] seconds, a length that
    [time.sleep] takes when the timer of the platform takes lengths up
    to [limit]: the number its [Retry-After] header holds, or 1 when it
    has no such header. *)
Definition asks_to_wait (limit : Z) (r : Response) (secs : Z) : Prop :=
  status_code r = 429 /\ 0 <= secs <= Z.min SLEEP_MAX limit /\
  (resp_headers r !! "retry-after" = None /\ secs = 1 \/
   exists v, resp_headers r !! "retry-after" = Some v /\ Py.int v = Some secs).

(** The world after some events were recorded and the script replaced. *)
Definition after (events : list Event) (script : list Reply) (w : World) : World :=
  mkWorld script (clock w) (ticks w) (longest_sleep w) (store w)
    (trace w ++ events).

(** The pages before the last one: each carries the non-empty cursor
    listed for it. *)
Inductive chained : list Response -> list (gmap string Json) -> list string -> Prop :=
| chained_nil : chained [] [] []
| chained_cons r f c rs fs cs :
    is_page r f -> f !! "next_page" = Some (JStr c) -> c <> "" ->
    chained rs fs cs -> chained (r :: rs) (f :: fs) (c :: cs).

(** The cursor held after the pages of a chain, starting from [cur]. *)
Definition cursor_after (cur : Json) (cs : list string) : Json :=
  default cur (JStr <$> last cs).

(** ** Concrete worlds

    The set-up of [tests/test_connectors_zendesk_audit_logs.py]: the
    connector of [setUp], and replies shaped like its two fixtures (a
    page of three entries with a cursor, a page of one entry without).
    The clock of these worlds always reads 2023-12-08T09:30:00, later
    than every entry of the fixtures. *)

Definition test_connector : Connector :=
  mkConnector "orgname" "token" (Some "username").

Definition test_client : Client := client_of test_connector.

Definition entry (id : Z) (created_at : string) : Json :=
  JObj (<["created_at" := JStr created_at]> (<["id" := JNum id]> ∅)).

Definition page_2_url : string :=
  "https://orgname.zendesk.com/api/v2/audit_logs?page=2".

Definition fixture_001 : gmap string Json :=
  <["next_page" := JStr page_2_url]>
    (<["audit_logs" :=
         JArr [entry 4 "2023-12-07T17:50:08Z"; entry 3 "2023-12-07T11:02:41Z";
               entry 2 "2023-12-06T23:15:00Z"]]> ∅).

Definition fixture_002 : gmap string Json :=
  <["audit_logs" := JArr [entry 1 "2023-12-06T08:30:12Z"]]> ∅.

(** A 200 reply with the given decoded body and no header of note. *)
Definition ok_reply (fields : gmap string Json) : Response :=
  mkResponse 200 ∅ (Some (JObj fields)).

(** A 429 reply, with or without a [Retry-After] header. *)
Definition rate_limit_reply (retry_after : option string) : Response :=
  mkResponse 429
    (match retry_after with
     | Some v => <["retry-after" := v]> ∅
     | None => ∅
     end)
    None.

(** A reply with the given status and a body that is not JSON. *)
Definition bare_reply (status : Z) : Response := mkResponse status ∅ None.

Definition test_now : Datetime.datetime := 1702027800.

(** The longest sleep taken by a machine that has been up for some
    hours. *)
Definition test_longest_sleep : Z := 9223344869.

Definition test_world (script : list Reply) (stored : option string) : World :=
  mkWorld script (fun _ => test_now) 0 test_longest_sleep (mkStore stored []) [].

(** The run of [test_collect_pagination], started from a stored pointer. *)
Definition two_pages : World :=
  test_world [Answer (ok_reply fixture_001); Answer (ok_reply fixture_002)]
    (Some "2023-12-06T00:00:00Z").

(** A first run (nothing stored) whose only request fails. *)
Definition first_run_failing : World :=
  test_world [Answer (bare_reply 500)] None.

(** A pass whose second request fails after the first page was saved. *)
Definition failing_on_page_2 : World :=
  test_world [Answer (ok_reply fixture_001); Answer (bare_reply 503);
              Answer (ok_reply fixture_002)]
    (Some "2023-12-06T00:00:00Z").

(** A request that is rate-limited twice, then served. *)
Definition retried_twice : World :=
  test_world [Answer (rate_limit_reply (Some "66")); Answer (rate_limit_reply None);
              Answer (ok_reply fixture_002)]
    (Some "2023-12-06T00:00:00Z").

(** A rate limit whose [Retry-After] header is an HTTP date. *)
Definition retry_after_a_date : World :=
  test_world [Answer (rate_limit_reply (Some "Wed, 21 Oct 2015 07:28:00 GMT"));
              Answer (ok_reply fixture_002)]
    (Some "2023-12-06T00:00:00Z").

(** A client built with [retry=False], and a script whose first reply
    is a rate limit. *)
Definition no_retry_client : Client :=
  Client__init__ (Some "orgname") (Some "username") (Some "token") (Some false).

Definition rate_limited_once : World :=
  test_world [Answer (rate_limit_reply (Some "66")); Answer (ok_reply fixture_002)]
    (Some "2023-12-06T00:00:00Z").

(** Replies with a 3xx status: one with a JSON body, one without. *)
Definition multiple_choices : World :=
  test_world [Answer (mkResponse 300 ∅ (Some (JObj fixture_002)))]
    (Some "2023-12-06T00:00:00Z").

Definition not_modified : World :=
  test_world [Answer (bare_reply 304)] (Some "2023-12-06T00:00:00Z").

(** A first run (nothing stored) that is served one page. *)
Definition first_run : World :=
  test_world [Answer (ok_reply fixture_002)] None.

(** A 200 reply whose body is an empty dictionary. *)
Definition empty_body : World :=
  test_world [Answer (ok_reply ∅)] (Some "2023-12-06T00:00:00Z").

(** ** Further vocabulary *)

(** [w'] is reached from [w] by calls that save nothing and leave the
    store and the clock alone: the trace has grown and replies were
    taken from the front of the script. *)
Definition quiet_steps (w w' : World) : Prop :=
  exists tr used,
    trace w' = trace w ++ tr /\
    replies w = used ++ replies w' /\
    batches tr = [] /\
    store w' = store w /\
    clock w' = clock w /\
    ticks w' = ticks w.

(** An action all of whose runs are [quiet_steps]. *)
Definition quiet {A} (m : M A) : Prop :=
  forall w r w', m w = (r, w') -> quiet_steps w w'.

(** The batches of [tr] are the entries of served pages among the
    replies [used], in the order in which those replies come, each
    reply accounting for one batch at most. *)
Definition saved_from (tr : list Event) (used : list Reply) : Prop :=
  exists pages : list (Response * gmap string Json),
    batches tr = map (fun p => page_entries (snd p)) pages /\
    Forall (fun p => is_page (fst p) (snd p)) pages /\
    sublist (map (fun p => Answer (fst p)) pages) used.

(** [w'] is reached from [w] by calls whose saved batches come from the
    replies they read. *)
Definition passes_through (w w' : World) : Prop :=
  exists tr used,
    trace w' = trace w ++ tr /\
    replies w = used ++ replies w' /\
    saved_from tr used.

(** A request without query parameters that carries the headers of
    [client]. *)
Definition cursor_request (client : Client) (e : Event) : Prop :=
  exists u, e = EGet u (headers client) None.

(** A script of pages in which any page may be preceded by rate-limited
    replies: the script, the fields of its pages, and the seconds the
    rate-limited replies ask for, in order, all of them lengths that
    [time.sleep] takes when the timer takes lengths up to [limit]. *)
Inductive paged_retrying (limit : Z)
  : list Reply -> list (gmap string Json) -> list Z -> Prop :=
| paged_retrying_last rs ds r f :
    Forall2 (asks_to_wait limit) rs ds -> is_page r f -> terminal f ->
    paged_retrying limit (map Answer rs ++ [Answer r]) [f] ds
| paged_retrying_more rs ds r f c script fs ds' :
    Forall2 (asks_to_wait limit) rs ds -> is_page r f ->
    f !! "next_page" = Some (JStr c) -> c <> "" ->
    paged_retrying limit script fs ds' ->
    paged_retrying limit (map Answer rs ++ Answer r :: script) (f :: fs)
      (ds ++ ds').

(** What [time.sleep(int(v))] raises for a [Retry-After] value [v] that
    does not give a sleep, when the timer takes lengths up to [limit]:
    [ValueError] when [int] refuses [v] or the number is negative,
    [OverflowError] when the number is beyond what [time.sleep]
    converts, [OSError] when the timer refuses the length. *)
Inductive bad_wait (limit : Z) (v : string) : Exn -> Prop :=
| bad_wait_literal :
    Py.int v = None -> bad_wait limit v ValueError
| bad_wait_negative secs :
    Py.int v = Some secs -> - SLEEP_MAX <= secs < 0 ->
    bad_wait limit v ValueError
| bad_wait_overflow secs :
    Py.int v = Some secs -> secs < - SLEEP_MAX \/ SLEEP_MAX < secs ->
    bad_wait limit v OverflowError
| bad_wait_timer secs :
    Py.int v = Some secs -> 0 <= secs <= SLEEP_MAX -> limit < secs ->
    bad_wait limit v OSError.

(** A value that [requests] cannot take for a URL and that is not
    [None]. *)
Definition not_a_url (v : Json) : Prop :=
  v <> JNull /\ forall u, v <> JStr u.

(** ** Further concrete worlds *)

(** A rate limit whose [Retry-After] header is a negative number. *)
Definition retry_after_negative : World :=
  test_world [Answer (rate_limit_reply (Some "-5")); Answer (ok_reply fixture_002)]
    (Some "2023-12-06T00:00:00Z").

(** A rate limit whose [Retry-After] header is one second more than
    [time.sleep] converts, and one whose header is the longest length
    it converts, more than the timer of these worlds takes. *)
Definition retry_after_too_long : World :=
  test_world [Answer (rate_limit_reply (Some "9223372037"));
              Answer (ok_reply fixture_002)]
    (Some "2023-12-06T00:00:00Z").

Definition retry_after_beyond_timer : World :=
  test_world [Answer (rate_limit_reply (Some "9223372036"));
              Answer (ok_reply fixture_002)]
    (Some "2023-12-06T00:00:00Z").

(** A connection that fails on the first request. *)
Definition connection_lost : World :=
  test_world [Fault "ConnectionError"; Answer (ok_reply fixture_002)]
    (Some "2023-12-06T00:00:00Z").

(** A 200 reply whose body is not JSON. *)
Definition not_json : World :=
  test_world [Answer (bare_reply 200); Answer (ok_reply fixture_002)]
    (Some "2023-12-06T00:00:00Z").

(** A 200 reply whose body is a JSON list. *)
Definition list_body : World :=
  test_world [Answer (mkResponse 200 ∅ (Some (JArr [])));
              Answer (ok_reply fixture_002)]
    (Some "2023-12-06T00:00:00Z").

(** A 200 reply whose body is the JSON value [null]. *)
Definition null_body : World :=
  test_world [Answer (mkResponse 200 ∅ (Some JNull));
              Answer (ok_reply fixture_002)]
    (Some "2023-12-06T00:00:00Z").

(** The two pages of the fixtures, each behind a rate limit. *)
Definition rate_limited_pages : World :=
  test_world [Answer (rate_limit_reply (Some "66")); Answer (ok_reply fixture_001);
              Answer (rate_limit_reply None); Answer (ok_reply fixture_002)]
    (Some "2023-12-06T00:00:00Z").

(** A page whose [next_page] is a number. *)
Definition numeric_cursor_page : gmap string Json :=
  <["next_page" := JNum 2]> fixture_002.

Definition numeric_cursor : World :=
  test_world [Answer (ok_reply numeric_cursor_page); Answer (ok_reply fixture_002)]
    (Some "2023-12-06T00:00:00Z").

(** * Properties *)

(** ** The monad and the loop combinator *)

Lemma bind_ok {A B} (m : M A) (k : A -> M B) w a w1 :
  m w = (Ok a, w1) -> (x <- m ;; k x) w = k a w1.
Proof. intros H. unfold bind. now rewrite H. Qed.

Lemma bind_raise {A B} (m : M A) (k : A -> M B) w e w1 :
  m w = (Raise e, w1) -> (x <- m ;; k x) w = (Raise e, w1).
Proof. intros H. unfold bind. now rewrite H. Qed.

(** Inversion of a bind: either the first action raised, or it returned
    and the continuation produced the result. *)
Lemma bind_inv {A B} (m : M A) (k : A -> M B) w r w2 :
  (x <- m ;; k x) w = (r, w2) ->
  (exists e, m w = (Raise e, w2) /\ r = Raise e) \/
  (exists a w1, m w = (Ok a, w1) /\ k a w1 = (r, w2)).
Proof.
  unfold bind. destruct (m w) as [[a|e] w1]; intros H.
  - right. eauto.
  - left. exists e. now inversion H.
Qed.

Section Loop.

Context {St A : Type}.
Variable body : St -> M (Ctl St A).

Hypothesis body_consumes : consumes body.

Lemma iterate_fuel n m s w :
  (length (replies w) < n)%nat -> (length (replies w) < m)%nat ->
  iterate n body s w = iterate m body s w.
Proof.
  revert m s w. induction n as [|n IH]; intros m s w Hn Hm; [lia|].
  destruct m as [|m]; [lia|]. simpl. unfold bind.
  destruct (body s w) as [[[s'|a]|e] w'] eqn:E; trivial.
  apply body_consumes in E. apply IH; lia.
Qed.

(** The loop does what [while True] does: run the body, then go round
    again or leave. *)
Lemma while_true_unfold s w :
  while_true body s w =
  match body s w with
  | (Ok (Continue s'), w') => while_true body s' w'
  | (Ok (Break a), w') => (Ok a, w')
  | (Raise e, w') => (Raise e, w')
  end.
Proof.
  unfold while_true at 1. simpl. unfold bind.
  destruct (body s w) as [[[s'|a]|e] w'] eqn:E; trivial.
  unfold while_true. apply body_consumes in E. apply iterate_fuel; lia.
Qed.

(** The loop is never cut off. *)
Lemma iterate_total n s w r w' :
  (length (replies w) < n)%nat ->
  (forall s0 w0 w1, body s0 w0 <> (Raise Diverged, w1)) ->
  iterate n body s w = (r, w') -> r <> Raise Diverged.
Proof.
  intros Hn Hbody. revert s w Hn.
  induction n as [|n IH]; intros s w Hn; [lia|]. simpl. unfold bind.
  destruct (body s w) as [[[s'|a]|e] w1] eqn:E; intros H.
  - apply body_consumes in E. apply (IH s' w1); [lia | exact H].
  - inversion H. discriminate.
  - inversion H; subst. intros Heq. inversion Heq; subst.
    now apply (Hbody s w w').
Qed.

Lemma while_true_total s w r w' :
  (forall s0 w0 w1, body s0 w0 <> (Raise Diverged, w1)) ->
  while_true body s w = (r, w') -> r <> Raise Diverged.
Proof. intros Hbody. unfold while_true. apply iterate_total; [lia | exact Hbody]. Qed.

End Loop.

Section LoopRules.

Context {St A : Type}.
Variable body : St -> M (Ctl St A).

(** A relation between the worlds before and after that every turn
    respects is respected by the loop. *)
Lemma iterate_rel (R : World -> World -> Prop) :
  (forall w, R w w) ->
  (forall w1 w2 w3, R w1 w2 -> R w2 w3 -> R w1 w3) ->
  (forall s w c w', body s w = (c, w') -> R w w') ->
  forall n s w r w', iterate n body s w = (r, w') -> R w w'.
Proof.
  intros Hrefl Htrans Hbody. induction n as [|n IH]; intros s w r w'; simpl.
  - unfold raise. intros H. inversion H; subst. apply Hrefl.
  - unfold bind. destruct (body s w) as [[[s'|a]|e] w1] eqn:E; intros H.
    + eapply Htrans; [eapply Hbody, E | eapply IH, H].
    + inversion H; subst. eapply Hbody, E.
    + inversion H; subst. eapply Hbody, E.
Qed.

(** An exception that leaves the loop was raised by a turn, unless the
    loop was cut off. *)
Lemma iterate_raise (P : Exn -> Prop) :
  (forall s w e w', body s w = (Raise e, w') -> P e) ->
  forall n s w e w', iterate n body s w = (Raise e, w') -> P e \/ e = Diverged.
Proof.
  intros Hbody. induction n as [|n IH]; intros s w e w'; simpl.
  - unfold raise. intros H. inversion H. now right.
  - unfold bind. destruct (body s w) as [[[s'|a]|e0] w1] eqn:E; intros H.
    + eapply IH, H.
    + discriminate.
    + inversion H; subst. left. eapply Hbody, E.
Qed.

End LoopRules.
(** ** Sanity checks of the library functions *)

Example int_66 : Py.int "66" = Some 66.
Proof. reflexivity. Qed.

Example int_padded : Py.int " +1_000 " = Some 1000.
Proof. reflexivity. Qed.

Example int_negative : Py.int "-5" = Some (-5).
Proof. reflexivity. Qed.

Example int_http_date : Py.int "Wed, 21 Oct 2015 07:28:00 GMT" = None.
Proof. reflexivity. Qed.

Example int_empty : Py.int "" = None.
Proof. reflexivity. Qed.

Example int_no_break_space : Py.int (String (ascii_of_nat 160) "5") = Some 5.
Proof. reflexivity. Qed.

Example int_unit_separator : Py.int (String (ascii_of_nat 31) "5") = None.
Proof. reflexivity. Qed.

Example int_digit_cap :
  Py.int (string_of_list_ascii (replicate 4300 "1"%char)) <> None /\
  Py.int (string_of_list_ascii (replicate 4301 "1"%char)) = None.
Proof. split; vm_compute; [discriminate | reflexivity]. Qed.

Example sleep_lengths :
  sleep_error test_longest_sleep 66 = None /\
  sleep_error test_longest_sleep (-1) = Some ValueError /\
  sleep_error test_longest_sleep 9223372036 = Some OSError /\
  sleep_error test_longest_sleep 9223372037 = Some OverflowError /\
  sleep_error test_longest_sleep (-9223372037) = Some OverflowError.
Proof. repeat split. Qed.

Example b64_test_credentials :
  Base64.b64encode "username/token:token" = "dXNlcm5hbWUvdG9rZW46dG9rZW4=".
Proof. reflexivity. Qed.

Example strftime_fixture :
  Datetime.strftime 1701971408 = "2023-12-07T17:50:08Z".
Proof. reflexivity. Qed.

Example strftime_day_before :
  Datetime.strftime (1701971408 - Datetime.timedelta 1) = "2023-12-06T17:50:08Z".
Proof. reflexivity. Qed.

(** ** [time.sleep] *)

(** The lengths that [time.sleep] takes. *)
Lemma sleep_error_None limit secs :
  sleep_error limit secs = None <-> 0 <= secs <= Z.min SLEEP_MAX limit.
Proof.
  unfold sleep_error.
  destruct (Z.ltb_spec secs (- SLEEP_MAX)), (Z.ltb_spec SLEEP_MAX secs),
           (Z.ltb_spec secs 0), (Z.ltb_spec limit secs);
    unfold SLEEP_MAX in *; simpl;
    (split; intros Hyp; first [discriminate Hyp | reflexivity | lia]).
Qed.

(** The exceptions of [time.sleep]. *)
Lemma sleep_error_Some limit secs e :
  sleep_error limit secs = Some e ->
  e = OverflowError \/ e = ValueError \/ e = OSError.
Proof.
  unfold sleep_error. intros H.
  repeat match type of H with
         | context [if ?b then _ else _] => destruct b
         end; inversion H; auto.
Qed.

(** ** [Client._get] *)

Lemma _get_turn_eq self u params w :
  _get_turn self (JStr u) params tt w =
  let w1 := emit (EGet u (headers self) params) w in
  match replies w with
  | [] => (Raise (TransportError "no reply"), w1)
  | Fault what :: rs => (Raise (TransportError what), set_replies rs w1)
  | Answer r :: rs =>
      let w2 := set_replies rs w1 in
      if (400 <=? status_code r) && (status_code r <? 600) then
        if status_code r =? 429 then
          let w3 := emit (ELog WARNING "Rate-limit was exceeded during request" ∅) w2 in
          if retry self then
            match Py.int (headers_get (resp_headers r) "Retry-After" "1") with
            | Some secs =>
                match sleep_error (longest_sleep w) secs with
                | Some e => (Raise e, w3)
                | None => (Ok (Continue tt), emit (ESleep secs) w3)
                end
            | None => (Raise ValueError, w3)
            end
          else (Raise (RateLimitException r), w3)
        else (Raise (RequestFailedException r), w2)
      else (Ok (Break r), w2)
  end.
Proof.
  unfold _get_turn, bind, requests_get. cbn [replies emit].
  destruct (replies w) as [|[r|what] rs]; try reflexivity.
  unfold raise_for_status.
  destruct ((400 <=? status_code r) && (status_code r <? 600)); [|reflexivity].
  destruct (status_code r =? 429); [|reflexivity].
  unfold logger_log, int, time_sleep. destruct (retry self); [|reflexivity].
  destruct (Py.int _) as [secs|]; [|reflexivity].
  unfold bind, ret. cbn [longest_sleep emit set_replies].
  destruct (sleep_error _ secs); reflexivity.
Qed.

Lemma _get_turn_not_str self url params s w :
  (forall u, url <> JStr u) ->
  _get_turn self url params s w = (Raise (TransportError "invalid url"), w).
Proof.
  intros Hurl. unfold _get_turn, bind.
  destruct url; try reflexivity. now destruct (Hurl s0).
Qed.

Lemma _get_turn_consumes self url params : consumes (_get_turn self url params).
Proof.
  intros [] w [] w' H.
  destruct url as [| | |u| |];
    try (rewrite _get_turn_not_str in H by discriminate; discriminate).
  rewrite _get_turn_eq in H. cbv zeta in H.
  destruct (replies w) as [|[r|what] rs] eqn:E; try discriminate.
  repeat match type of H with
         | (if ?b then _ else _) = _ => destruct b; try discriminate
         | match ?o with Some _ => _ | None => _ end = _ => destruct o; try discriminate
         end.
  inversion H; subst. simpl. lia.
Qed.

Lemma _get_turn_total self url params s w w' :
  _get_turn self url params s w <> (Raise Diverged, w').
Proof.
  destruct s.
  destruct url as [| | |u| |];
    try (rewrite _get_turn_not_str by discriminate; discriminate).
  rewrite _get_turn_eq. cbv zeta.
  destruct (replies w) as [|[r|what] rs]; try discriminate.
  repeat match goal with
         | |- (if ?b then _ else _) <> _ => destruct b; try discriminate
         | |- match ?o with Some _ => _ | None => _ end <> _ =>
             destruct o eqn:?; try discriminate
         end.
  intros Heq. inversion Heq; subst.
  match goal with
  | E : sleep_error _ _ = Some _ |- _ =>
      apply sleep_error_Some in E as [E|[E|E]]; discriminate E
  end.
Qed.

(** [_get] as a recursive equation on the script of replies. *)
Lemma _get_eq self u params w :
  _get self (JStr u) params w =
  let w1 := emit (EGet u (headers self) params) w in
  match replies w with
  | [] => (Raise (TransportError "no reply"), w1)
  | Fault what :: rs => (Raise (TransportError what), set_replies rs w1)
  | Answer r :: rs =>
      let w2 := set_replies rs w1 in
      if (400 <=? status_code r) && (status_code r <? 600) then
        if status_code r =? 429 then
          let w3 := emit (ELog WARNING "Rate-limit was exceeded during request" ∅) w2 in
          if retry self then
            match Py.int (headers_get (resp_headers r) "Retry-After" "1") with
            | Some secs =>
                match sleep_error (longest_sleep w) secs with
                | Some e => (Raise e, w3)
                | None => _get self (JStr u) params (emit (ESleep secs) w3)
                end
            | None => (Raise ValueError, w3)
            end
          else (Raise (RateLimitException r), w3)
        else (Raise (RequestFailedException r), w2)
      else
        match resp_json r with
        | Some decoded => (Ok (Types.mkHTTPResponse (resp_headers r) decoded), w2)
        | None => (Raise JSONDecodeError, w2)
        end
  end.
Proof.
  unfold _get at 1. unfold bind at 1.
  rewrite while_true_unfold by apply _get_turn_consumes.
  rewrite _get_turn_eq. cbv zeta.
  destruct (replies w) as [|[r|what] rs]; try reflexivity.
  destruct ((400 <=? status_code r) && (status_code r <? 600)).
  - destruct (status_code r =? 429); [|reflexivity].
    destruct (retry self); [|reflexivity].
    destruct (Py.int _) as [secs|]; [|reflexivity].
    destruct (sleep_error _ secs); reflexivity.
  - unfold response_json, bind, ret, raise.
    destruct (resp_json r); reflexivity.
Qed.

(** A 4xx or 5xx reply other than 429 ends [_get] after the one
    request. *)
Lemma _get_failed self u params r rs w :
  400 <= status_code r < 600 ->
  status_code r <> 429 ->
  replies w = Answer r :: rs ->
  _get self (JStr u) params w =
    (Raise (RequestFailedException r),
     after [EGet u (headers self) params] rs w).
Proof.
  intros Hrange Hne Hw. rewrite _get_eq. cbv zeta. rewrite Hw.
  destruct (400 <=? status_code r) eqn:E1; [|apply Z.leb_gt in E1; lia].
  destruct (status_code r <? 600) eqn:E2; [|apply Z.ltb_ge in E2; lia].
  destruct (status_code r =? 429) eqn:E3; [apply Z.eqb_eq in E3; lia|].
  reflexivity.
Qed.

(** A reply that [raise_for_status] lets through ends [_get] with its
    decoded body. *)
Lemma _get_served self u params r decoded rs w :
  raise_for_status r = None ->
  resp_json r = Some decoded ->
  replies w = Answer r :: rs ->
  _get self (JStr u) params w =
    (Ok (Types.mkHTTPResponse (resp_headers r) decoded),
     after [EGet u (headers self) params] rs w).
Proof.
  intros Hok Hjson Hw. rewrite _get_eq. cbv zeta. rewrite Hw.
  unfold raise_for_status in Hok.
  destruct ((400 <=? status_code r) && (status_code r <? 600)); [discriminate|].
  now rewrite Hjson.
Qed.

(** With retries on, rate-limited replies are absorbed one by one: each
    costs a request, a warning and a sleep, then the same call starts
    over on what is left of the script. *)
Lemma _get_retries self u params rs ds rest w :
  retry self = true ->
  Forall2 (asks_to_wait (longest_sleep w)) rs ds ->
  replies w = map Answer rs ++ rest ->
  _get self (JStr u) params w =
  _get self (JStr u) params
    (after (mjoin (map (retry_round self u params) ds)) rest w).
Proof.
  intros Hretry Hrs. remember (longest_sleep w) as limit eqn:Hlimit.
  revert w Hlimit.
  induction Hrs as [|r d rs ds (Hst & Hd & Hhdr) _ IH]; intros w Hlimit Hw.
  - simpl in Hw. unfold after. simpl. rewrite app_nil_r, <- Hw. now destruct w.
  - simpl in Hw. rewrite _get_eq. cbv zeta. rewrite Hw, Hst, Hretry. simpl.
    assert (Py.int (headers_get (resp_headers r) "Retry-After" "1") = Some d) as ->.
    { unfold headers_get. change (Py.lower_str "Retry-After") with "retry-after".
      destruct Hhdr as [(-> & ->)|(v & -> & Hv)]; [reflexivity | exact Hv]. }
    rewrite <- Hlimit. rewrite (proj2 (sleep_error_None limit d) Hd).
    rewrite IH by (try reflexivity; exact Hlimit). f_equal. unfold after, emit, set_replies. simpl.
    f_equal. now rewrite <- !app_assoc.
Qed.

(** ** Runs only add to the trace and only save through [save] *)

Lemma batches_app tr1 tr2 : batches (tr1 ++ tr2) = batches tr1 ++ batches tr2.
Proof. apply omap_app. Qed.

Lemma sleeps_app tr1 tr2 : sleeps (tr1 ++ tr2) = sleeps tr1 ++ sleeps tr2.
Proof. apply omap_app. Qed.

Lemma io_app tr1 tr2 : io (tr1 ++ tr2) = io tr1 ++ io tr2.
Proof. apply omap_app. Qed.

Lemma gets_app tr1 tr2 : gets (tr1 ++ tr2) = gets tr1 ++ gets tr2.
Proof. apply omap_app. Qed.

Section Steps.

Variable on_save : Json -> Store -> Store.

Lemma steps_refl w : steps on_save w w.
Proof. exists [], []. simpl. now rewrite app_nil_r. Qed.

Lemma steps_trans w1 w2 w3 :
  steps on_save w1 w2 -> steps on_save w2 w3 -> steps on_save w1 w3.
Proof.
  intros (tr1 & u1 & Ht1 & Hr1 & Hc1 & Hs1) (tr2 & u2 & Ht2 & Hr2 & Hc2 & Hs2).
  exists (tr1 ++ tr2), (u1 ++ u2). repeat split.
  - now rewrite Ht2, Ht1, app_assoc.
  - now rewrite Hr1, Hr2, app_assoc.
  - congruence.
  - rewrite Hs2, Hs1, batches_app. unfold deliver. now rewrite foldl_app.
Qed.

Lemma steps_emit e w : batches [e] = [] -> steps on_save w (emit e w).
Proof. intros He. exists [e], []. repeat split. now rewrite He. Qed.

Lemma steps_take x rs w :
  replies w = x :: rs -> steps on_save w (set_replies rs w).
Proof. intros Hw. exists [], [x]. simpl. rewrite app_nil_r. now repeat split. Qed.

Lemma stepping_ret {A} (a : A) : stepping on_save (ret a).
Proof. intros w r w' H. inversion H. apply steps_refl. Qed.

Lemma stepping_raise {A} e : stepping on_save (@raise A e).
Proof. intros w r w' H. inversion H. apply steps_refl. Qed.

Lemma stepping_bind {A B} (m : M A) (k : A -> M B) :
  stepping on_save m -> (forall a, stepping on_save (k a)) ->
  stepping on_save (x <- m ;; k x).
Proof.
  intros Hm Hk w r w' H.
  apply bind_inv in H as [(e & H & _)|(a & w1 & H1 & H2)].
  - eapply Hm, H.
  - eapply steps_trans; [eapply Hm, H1 | eapply Hk, H2].
Qed.

Lemma stepping_requests_get url hdrs params :
  stepping on_save (requests_get url hdrs params).
Proof.
  intros w r w' H. unfold requests_get in H.
  destruct url; try (inversion H; apply steps_refl).
  cbn [replies emit] in H.
  destruct (replies w) as [|[x|what] rs] eqn:E; inversion H; subst; clear H;
    try (now apply steps_emit);
    (apply steps_trans with (emit (EGet s hdrs params) w);
     [now apply steps_emit | eapply steps_take; simpl; exact E]).
Qed.

Lemma stepping_logger_log lvl msg extra :
  stepping on_save (logger_log lvl msg extra).
Proof. intros w r w' H. inversion H. now apply steps_emit. Qed.

Lemma stepping_time_sleep secs : stepping on_save (time_sleep secs).
Proof.
  intros w r w' H. unfold time_sleep in H.
  destruct (sleep_error _ secs); inversion H;
    [apply steps_refl | now apply steps_emit].
Qed.

Lemma stepping_int s : stepping on_save (int s).
Proof.
  unfold int. destruct (Py.int s); [apply stepping_ret | apply stepping_raise].
Qed.

Lemma stepping_response_json r : stepping on_save (response_json r).
Proof.
  unfold response_json.
  destruct (resp_json r); [apply stepping_ret | apply stepping_raise].
Qed.

Lemma stepping_dict_get d k dflt : stepping on_save (dict_get d k dflt).
Proof. destruct d; first [apply stepping_ret | apply stepping_raise]. Qed.

Lemma stepping_pointer_get : stepping on_save pointer_get.
Proof.
  intros w r w' H. unfold pointer_get in H.
  destruct (pointer (store w)); inversion H; apply steps_refl.
Qed.

Lemma stepping_utcnow : stepping on_save utcnow.
Proof.
  intros w r w' H. inversion H. exists [], []. simpl.
  rewrite app_nil_r. now repeat split.
Qed.

Lemma stepping_save batch : stepping on_save (save on_save batch).
Proof.
  intros w r w' H. inversion H. exists [ESave batch], []. now repeat split.
Qed.

Lemma stepping_while_true {St A} (body : St -> M (Ctl St A)) s :
  (forall s0, stepping on_save (body s0)) ->
  stepping on_save (while_true body s).
Proof.
  intros Hbody w r w' H.
  eapply (iterate_rel body (steps on_save) steps_refl steps_trans); [|exact H].
  intros s0 w0 c w1 H0. eapply Hbody, H0.
Qed.

Create HintDb stepping.

#[local] Hint Resolve stepping_ret stepping_raise stepping_requests_get
  stepping_logger_log stepping_time_sleep stepping_int stepping_response_json
  stepping_dict_get stepping_pointer_get stepping_utcnow stepping_save
  : stepping.

(** Walks through an action built from the primitives above. *)
Ltac stepping :=
  repeat first
    [ progress eauto with stepping
    | apply stepping_bind; [|intros ?]
    | apply stepping_while_true; intros ?
    | match goal with
      | |- stepping _ (match ?x with _ => _ end) => destruct x
      | |- stepping _ (if ?b then _ else _) => destruct b
      end ].

Lemma stepping__get self url params : stepping on_save (_get self url params).
Proof. unfold _get. stepping. Qed.

Lemma stepping_get_audit_logs self cursor from_date to_date :
  stepping on_save (get_audit_logs self cursor from_date to_date).
Proof.
  unfold get_audit_logs. apply stepping_bind.
  - destruct cursor; stepping.
  - intros result. stepping.
Qed.

Lemma stepping_collect_turn client now cursor :
  stepping on_save (collect_turn on_save client now cursor).
Proof. unfold collect_turn. stepping. Qed.

Lemma stepping_collect_loop client now cursor :
  stepping on_save (while_true (collect_turn on_save client now) cursor).
Proof. apply stepping_while_true. intros c. apply stepping_collect_turn. Qed.

End Steps.

(** ** [Client.get_audit_logs] and the paging loop of [Connector.collect] *)

Lemma get_audit_logs_first self from_date to_date w r rs fields :
  replies w = Answer r :: rs -> is_page r fields ->
  get_audit_logs self JNull from_date to_date w =
  (Ok (Types.mkAuditLogEntries
         (next_cursor fields)
         (page_entries fields)),
   set_replies rs
     (emit (EGet (audit_logs_url self) (headers self)
              (Some (created_at_params from_date to_date)))
        (emit (ELog DEBUG "Collecting first page with provided"
                 (<["to_date" := of_opt_str to_date]>
                    (<["from_date" := of_opt_str from_date]> ∅))) w))).
Proof.
  intros Hw (Hok & Hjson). unfold get_audit_logs.
  unfold bind at 1. unfold bind at 1. unfold logger_log at 1.
  rewrite _get_eq. cbv zeta. cbn [replies emit]. rewrite Hw.
  unfold raise_for_status in Hok.
  destruct ((400 <=? status_code r) && (status_code r <? 600)); [discriminate|].
  rewrite Hjson. reflexivity.
Qed.

Lemma get_audit_logs_next self c from_date to_date w r rs fields :
  replies w = Answer r :: rs -> is_page r fields ->
  get_audit_logs self (JStr c) from_date to_date w =
  (Ok (Types.mkAuditLogEntries
         (next_cursor fields)
         (page_entries fields)),
   set_replies rs
     (emit (EGet c (headers self) None)
        (emit (ELog DEBUG "Collecting next page with provided cursor"
                 (<["cursor" := JStr c]> ∅)) w))).
Proof.
  intros Hw (Hok & Hjson). unfold get_audit_logs.
  unfold bind at 1. unfold bind at 1. unfold logger_log at 1.
  rewrite _get_eq. cbv zeta. cbn [replies emit]. rewrite Hw.
  unfold raise_for_status in Hok.
  destruct ((400 <=? status_code r) && (status_code r <? 600)); [discriminate|].
  rewrite Hjson. reflexivity.
Qed.

Lemma _get_ok_consumes self url params w x w' :
  _get self url params w = (Ok x, w') ->
  (length (replies w') < length (replies w))%nat.
Proof.
  destruct url as [| | |u| |];
    try (unfold _get; unfold bind at 1;
         rewrite while_true_unfold by apply _get_turn_consumes;
         rewrite _get_turn_not_str by discriminate; discriminate).
  remember (replies w) as l eqn:El. revert w El.
  induction l as [|y l IH]; intros w El; rewrite _get_eq; cbv zeta; rewrite <- El.
  - discriminate.
  - destruct y as [r|what]; [|discriminate].
    destruct ((400 <=? status_code r) && (status_code r <? 600)).
    + destruct (status_code r =? 429); [|discriminate].
      destruct (retry self); [|discriminate].
      destruct (Py.int _) as [secs|]; [|discriminate].
      destruct (sleep_error _ secs); [discriminate|].
      intros H. apply IH in H; [|reflexivity]. simpl. lia.
    + destruct (resp_json r); [|discriminate].
      intros H. inversion H; subst. simpl. lia.
Qed.

Lemma steps_replies_le on_save w w' :
  steps on_save w w' -> (length (replies w') <= length (replies w))%nat.
Proof. intros (tr & used & _ & Hr & _). rewrite Hr, length_app. lia. Qed.

Lemma get_audit_logs_ok_consumes self cursor from_date to_date w x w' :
  get_audit_logs self cursor from_date to_date w = (Ok x, w') ->
  (length (replies w') < length (replies w))%nat.
Proof.
  unfold get_audit_logs. intros H.
  apply bind_inv in H as [(e & _ & He)|(result & w1 & H1 & H2)]; [discriminate|].
  assert (length (replies w1) < length (replies w))%nat as Hlt.
  { destruct cursor; apply bind_inv in H1 as [(e & _ & He)|([] & w0 & H0 & H1)];
      try discriminate; inversion H0; subst;
      apply _get_ok_consumes in H1; exact H1. }
  assert (steps sink_save w1 w') as Hle.
  { revert H2. apply stepping_bind; [apply stepping_dict_get|]. intros c.
    apply stepping_bind; [apply stepping_dict_get|]. intros es. apply stepping_ret. }
  apply steps_replies_le in Hle. lia.
Qed.

Lemma collect_turn_consumes on_save client now :
  consumes (collect_turn on_save client now).
Proof.
  intros cur w cur' w' H. unfold collect_turn in H.
  apply bind_inv in H as [(e & _ & He)|(p & w1 & H1 & H)]; [discriminate|].
  apply bind_inv in H as [(e & _ & He)|(log & w2 & H2 & H)]; [discriminate|].
  apply bind_inv in H as [(e & _ & He)|([] & w3 & H3 & H)]; [discriminate|].
  apply (stepping_pointer_get on_save) in H1. apply steps_replies_le in H1.
  apply get_audit_logs_ok_consumes in H2.
  apply (stepping_save on_save) in H3. apply steps_replies_le in H3.
  assert (w' = w3) as -> by (destruct (Types.cursor log); inversion H; reflexivity).
  lia.
Qed.

Lemma collect_eq on_save self w :
  collect on_save self w =
  while_true (collect_turn on_save (client_of self) (pass_now w)) JNull (started w).
Proof.
  unfold collect, started, try_except, bind, utcnow, pointer_get, pointer_set, ret.
  cbn [store set_ticks set_store ticks clock pointer].
  destruct (pointer (store w)); reflexivity.
Qed.

Lemma next_cursor_more f c :
  f !! "next_page" = Some (JStr c) -> c <> "" -> next_cursor f = JStr c.
Proof.
  intros Hf Hc. unfold next_cursor. rewrite Hf. simpl.
  destruct c; [congruence | reflexivity].
Qed.

Lemma next_cursor_terminal f : terminal f -> next_cursor f = JNull.
Proof.
  unfold next_cursor. intros [Hf|[Hf|Hf]]; now rewrite Hf.
Qed.

Section Paging.

Variable on_save : Json -> Store -> Store.
Variable client : Client.
Variable now : string.

Lemma collect_turn_page cur q p w r rs f :
  turn_request client now p cur = Some q ->
  pointer (store w) = Some p ->
  replies w = Answer r :: rs ->
  is_page r f ->
  exists w' tr,
    collect_turn on_save client now cur w =
      (Ok (match next_cursor f with
           | JNull => Break tt
           | c => Continue c
           end), w') /\
    trace w' = trace w ++ tr /\
    io tr = [q; ESave (page_entries f)] /\
    gets tr = [q] /\
    batches tr = [page_entries f] /\
    sleeps tr = [] /\
    replies w' = rs /\
    clock w' = clock w /\
    store w' = on_save (page_entries f) (store w).
Proof.
  intros Hq Hp Hw Hpage. unfold collect_turn.
  unfold bind at 1. unfold pointer_get at 1. rewrite Hp.
  unfold bind at 1.
  destruct cur as [| | |c| |]; try discriminate; inversion Hq; subst q; clear Hq.
  - rewrite (get_audit_logs_first _ _ _ _ _ _ _ Hw Hpage).
    eexists _, [_; _; _]. split.
    { unfold bind, save. cbn [Types.entries Types.cursor].
      destruct (next_cursor f); reflexivity. }
    cbn. rewrite <- !app_assoc. repeat split.
  - rewrite (get_audit_logs_next _ _ _ _ _ _ _ _ Hw Hpage).
    eexists _, [_; _; _]. split.
    { unfold bind, save. cbn [Types.entries Types.cursor].
      destruct (next_cursor f); reflexivity. }
    cbn. rewrite <- !app_assoc. repeat split.
Qed.

Hypothesis on_save_keeps : keeps_pointer on_save.

Lemma collect_loop_paged rs fs cs :
  paged rs fs cs ->
  forall cur q p w rest,
    turn_request client now p cur = Some q ->
    pointer (store w) = Some p ->
    replies w = map Answer rs ++ rest ->
    exists w' tr,
      while_true (collect_turn on_save client now) cur w = (Ok tt, w') /\
      trace w' = trace w ++ tr /\
      io tr = exchanges (q :: map (fun c => EGet c (headers client) None) cs) fs /\
      gets tr = q :: map (fun c => EGet c (headers client) None) cs /\
      batches tr = map page_entries fs /\
      sleeps tr = [] /\
      replies w' = rest /\
      clock w' = clock w /\
      store w' = deliver on_save (store w) (map page_entries fs).
Proof.
  induction 1 as [r f Hpage Hterm | r f c rs fs cs Hpage Hnext Hc Hrest IH];
    intros cur q p w rest Hq Hp Hw.
  - destruct (collect_turn_page cur q p w r rest f Hq Hp Hw Hpage)
      as (w' & tr & Hturn & Htr & Hio & Hg & Hb & Hsl & Hr & Hc & Hs).
    exists w', tr. rewrite while_true_unfold by apply collect_turn_consumes.
    rewrite Hturn, (next_cursor_terminal _ Hterm). now repeat split.
  - simpl in Hw.
    destruct (collect_turn_page cur q p w r _ f Hq Hp Hw Hpage)
      as (w1 & tr1 & Hturn & Htr1 & Hio1 & Hg1 & Hb1 & Hsl1 & Hr1 & Hc1 & Hs1).
    destruct (on_save_keeps (page_entries f) (store w)) as [p1 Hp1];
      [rewrite Hp; eauto|]. rewrite <- Hs1 in Hp1.
    destruct (IH (JStr c) (EGet c (headers client) None) p1 w1 rest eq_refl Hp1 Hr1)
      as (w' & tr & Hloop & Htr & Hio & Hg & Hb & Hsl & Hr & Hc' & Hs).
    exists w', (tr1 ++ tr). rewrite while_true_unfold by apply collect_turn_consumes.
    rewrite Hturn, (next_cursor_more _ _ Hnext Hc). repeat split.
    + exact Hloop.
    + now rewrite Htr, Htr1, app_assoc.
    + rewrite io_app, Hio1, Hio. reflexivity.
    + rewrite gets_app, Hg1, Hg. reflexivity.
    + rewrite batches_app, Hb1, Hb. reflexivity.
    + rewrite sleeps_app, Hsl1, Hsl. reflexivity.
    + exact Hr.
    + congruence.
    + rewrite Hs, Hs1. reflexivity.
Qed.

End Paging.

Lemma started_pointer w :
  pointer (store (started w)) =
  Some (default (lookback_seed w) (pointer (store w))).
Proof. unfold started. destruct (pointer (store w)) eqn:E; simpl; congruence. Qed.

Lemma started_replies w : replies (started w) = replies w.
Proof. unfold started. now destruct (pointer (store w)). Qed.

Lemma started_trace w : trace (started w) = trace w.
Proof. unfold started. now destruct (pointer (store w)). Qed.

Lemma started_clock w : clock (started w) = clock w.
Proof. unfold started. now destruct (pointer (store w)). Qed.

Lemma paged_length rs fs cs :
  paged rs fs cs -> length rs = S (length cs) /\ length fs = S (length cs).
Proof. induction 1 as [|? ? ? ? ? ? _ _ _ _ [IH1 IH2]]; simpl; auto. Qed.

(** ** Which exceptions can leave the code *)

Lemma raises_benign_ret {A} (a : A) : raises_benign (ret a).
Proof. intros w e w' H. discriminate. Qed.

Lemma raises_benign_raise {A} e : benign e -> raises_benign (@raise A e).
Proof. intros He w e' w' H. inversion H; subst. exact He. Qed.

Lemma raises_benign_bind {A B} (m : M A) (k : A -> M B) :
  raises_benign m -> (forall a, raises_benign (k a)) ->
  raises_benign (x <- m ;; k x).
Proof.
  intros Hm Hk w e w' H.
  apply bind_inv in H as [(e' & H & He)|(a & w1 & _ & H2)].
  - inversion He; subst. eapply Hm, H.
  - eapply Hk, H2.
Qed.

Lemma raises_benign_while_true {St A} (body : St -> M (Ctl St A)) s :
  consumes body -> (forall s0, raises_benign (body s0)) ->
  raises_benign (while_true body s).
Proof.
  intros Hcons Hbody w e w' H. split.
  - intros ->. eapply (while_true_total body Hcons); [|exact H|reflexivity].
    intros s0 w0 w1 H0. apply Hbody in H0. now destruct H0.
  - destruct (iterate_raise body benign) with (1 := Hbody) (2 := H)
      as [He| ->]; [apply He | discriminate].
Qed.

Lemma benign_ValueError : benign ValueError.
Proof. split; discriminate. Qed.

Lemma benign_OverflowError : benign OverflowError.
Proof. split; discriminate. Qed.

Lemma benign_OSError : benign OSError.
Proof. split; discriminate. Qed.

Lemma benign_AttributeError : benign AttributeError.
Proof. split; discriminate. Qed.

Lemma benign_JSONDecodeError : benign JSONDecodeError.
Proof. split; discriminate. Qed.

Lemma benign_NotFoundException : benign NotFoundException.
Proof. split; discriminate. Qed.

Lemma benign_TransportError what : benign (TransportError what).
Proof. split; discriminate. Qed.

Lemma benign_RequestFailedException err : benign (RequestFailedException err).
Proof. split; discriminate. Qed.

Create HintDb raises.

#[local] Hint Resolve benign_ValueError benign_OverflowError benign_OSError
  benign_AttributeError
  benign_JSONDecodeError benign_NotFoundException benign_TransportError
  benign_RequestFailedException raises_benign_ret raises_benign_raise : raises.

Lemma raises_benign_requests_get url hdrs params :
  raises_benign (requests_get url hdrs params).
Proof.
  intros w e w' H. unfold requests_get in H.
  destruct url; try (inversion H; subst; auto with raises).
  cbn [replies emit] in H.
  destruct (replies w) as [|[x|what] rs]; inversion H; auto with raises.
Qed.

Lemma raises_benign_logger_log lvl msg extra :
  raises_benign (logger_log lvl msg extra).
Proof. intros w e w' H. discriminate. Qed.

Lemma raises_benign_time_sleep secs : raises_benign (time_sleep secs).
Proof.
  intros w e w' H. unfold time_sleep in H.
  unfold sleep_error in H.
  repeat match type of H with
         | context [if ?b then _ else _] => destruct b
         end; inversion H; auto with raises.
Qed.

Lemma raises_benign_int s : raises_benign (int s).
Proof. unfold int. destruct (Py.int s); auto with raises. Qed.

Lemma raises_benign_response_json r : raises_benign (response_json r).
Proof. unfold response_json. destruct (resp_json r); auto with raises. Qed.

Lemma raises_benign_dict_get d k dflt : raises_benign (dict_get d k dflt).
Proof. destruct d; simpl; auto with raises. Qed.

Lemma raises_benign_pointer_get : raises_benign pointer_get.
Proof.
  intros w e w' H. unfold pointer_get in H.
  destruct (pointer (store w)); inversion H; auto with raises.
Qed.

Lemma raises_benign_save on_save batch : raises_benign (save on_save batch).
Proof. intros w e w' H. discriminate. Qed.

#[local] Hint Resolve raises_benign_requests_get raises_benign_logger_log
  raises_benign_time_sleep raises_benign_int raises_benign_response_json
  raises_benign_dict_get raises_benign_pointer_get raises_benign_save : raises.

(** With retries on, nothing but benign exceptions leaves a turn of
    [_get]: the rate-limit branch sleeps and goes round again. *)
Lemma raises_benign__get_turn self url params s :
  retry self = true -> raises_benign (_get_turn self url params s).
Proof.
  intros Hretry. unfold _get_turn.
  apply raises_benign_bind; [auto with raises|]. intros response.
  destruct (raise_for_status response) as [err|]; [|auto with raises].
  destruct (status_code err =? 429); [|auto with raises].
  apply raises_benign_bind; [auto with raises|]. intros _. rewrite Hretry.
  repeat (apply raises_benign_bind; [auto with raises|]; intros ?).
  auto with raises.
Qed.

Lemma raises_benign__get self url params :
  retry self = true -> raises_benign (_get self url params).
Proof.
  intros Hretry. unfold _get.
  apply raises_benign_bind.
  - apply raises_benign_while_true; [apply _get_turn_consumes|].
    intros s. now apply raises_benign__get_turn.
  - intros response. apply raises_benign_bind; auto with raises.
Qed.

Lemma raises_benign_get_audit_logs self cursor from_date to_date :
  retry self = true ->
  raises_benign (get_audit_logs self cursor from_date to_date).
Proof.
  intros Hretry. unfold get_audit_logs. apply raises_benign_bind.
  - destruct cursor;
      (apply raises_benign_bind; [auto with raises|]; intros _;
       now apply raises_benign__get).
  - intros result.
    repeat (apply raises_benign_bind; [auto with raises|]; intros ?).
    auto with raises.
Qed.

Lemma raises_benign_collect_turn on_save client now cursor :
  retry client = true ->
  raises_benign (collect_turn on_save client now cursor).
Proof.
  intros Hretry. unfold collect_turn.
  apply raises_benign_bind; [auto with raises|]. intros from_date.
  apply raises_benign_bind; [now apply raises_benign_get_audit_logs|].
  intros log. apply raises_benign_bind; [auto with raises|]. intros _.
  destruct (Types.cursor log); auto with raises.
Qed.

Lemma raises_benign_collect on_save self : raises_benign (collect on_save self).
Proof.
  intros w e w' H. rewrite collect_eq in H. revert H.
  apply raises_benign_while_true; [apply collect_turn_consumes|].
  intros cur. now apply raises_benign_collect_turn.
Qed.

(** [_get] is never cut off, whatever the retry flag. *)
Lemma _get_total self url params w r w' :
  _get self url params w = (r, w') -> r <> Raise Diverged.
Proof.
  unfold _get. intros H.
  apply bind_inv in H as [(e & H & ->)|(response & w1 & _ & H)].
  - intros Heq. inversion Heq; subst.
    eapply while_true_total in H; [now apply H | apply _get_turn_consumes|].
    intros s0 w0 w2. apply _get_turn_total.
  - unfold response_json in H. destruct (resp_json response); inversion H; discriminate.
Qed.

(** ** A failed request ends the pass where it happens *)

Lemma last_consumed_other e w w' :
  (forall r, e <> RequestFailedException r) -> last_consumed e w w'.
Proof. intros He r Hr. now destruct (He r). Qed.

Lemma last_consumed_steps on_save e w w1 w' :
  steps on_save w w1 -> last_consumed e w1 w' -> last_consumed e w w'.
Proof.
  intros (tr & used & _ & Hr & _) H r He.
  destruct (H r He) as (Hstatus & used' & Hr'). split; [exact Hstatus|].
  exists (used ++ used'). now rewrite Hr, Hr', app_assoc.
Qed.

Lemma aborting_bind on_save {A B} (m : M A) (k : A -> M B) :
  stepping on_save m -> aborting m -> (forall a, aborting (k a)) ->
  aborting (x <- m ;; k x).
Proof.
  intros Hstep Hm Hk w e w' H.
  apply bind_inv in H as [(e' & H & He)|(a & w1 & H1 & H2)].
  - inversion He; subst. eapply Hm, H.
  - eapply last_consumed_steps; [eapply Hstep, H1 | eapply Hk, H2].
Qed.

Lemma aborting_iterate on_save {St A} (body : St -> M (Ctl St A)) n s :
  (forall s0, stepping on_save (body s0)) -> (forall s0, aborting (body s0)) ->
  aborting (iterate n body s).
Proof.
  intros Hstep Hbody. revert s. induction n as [|n IH]; intros s w e w' H.
  - inversion H; subst. apply last_consumed_other. discriminate.
  - simpl in H. revert H. apply (aborting_bind on_save); [apply Hstep | apply Hbody|].
    intros [s'|a]; [apply IH|]. intros w0 e0 w1 H0. discriminate.
Qed.

Lemma aborting__get self url params : aborting (_get self url params).
Proof.
  intros w e w'.
  destruct url as [| | |u| |];
    try (unfold _get; unfold bind at 1;
         rewrite while_true_unfold by apply _get_turn_consumes;
         rewrite _get_turn_not_str by discriminate;
         intros H; inversion H; apply last_consumed_other; discriminate).
  remember (replies w) as l eqn:El. revert w El.
  induction l as [|y l IH]; intros w El; rewrite _get_eq; cbv zeta; rewrite <- El.
  - intros H. inversion H. apply last_consumed_other. discriminate.
  - destruct y as [r|what];
      [|intros H; inversion H; apply last_consumed_other; discriminate].
    destruct ((400 <=? status_code r) && (status_code r <? 600)) eqn:E1.
    + destruct (status_code r =? 429) eqn:E2.
      * destruct (retry self);
          [|intros H; inversion H; apply last_consumed_other; discriminate].
        destruct (Py.int _) as [secs|];
          [|intros H; inversion H; apply last_consumed_other; discriminate].
        destruct (sleep_error _ secs) as [e0|] eqn:E0;
          [intros H; inversion H; subst; apply last_consumed_other;
           apply sleep_error_Some in E0 as [->|[->| ->]]; discriminate|].
        intros H. apply IH in H; [|reflexivity].
        intros r0 He. destruct (H r0 He) as (Hstatus & used & Hused).
        split; [exact Hstatus|]. exists (Answer r :: used).
        rewrite <- El. simpl in Hused. now rewrite Hused.
      * intros H. inversion H; subst. intros r0 He. inversion He; subst r0.
        apply andb_true_iff in E1 as [E1 E3].
        apply Z.leb_le in E1. apply Z.ltb_lt in E3. apply Z.eqb_neq in E2.
        split; [lia|]. exists []. now rewrite <- El.
    + destruct (resp_json r); intros H; inversion H.
      apply last_consumed_other. discriminate.
Qed.

Lemma aborting_ret {A} (a : A) : aborting (ret a).
Proof. intros w e w' H. discriminate. Qed.

Lemma aborting_logger_log lvl msg extra : aborting (logger_log lvl msg extra).
Proof. intros w e w' H. discriminate. Qed.

Lemma aborting_dict_get d k dflt : aborting (dict_get d k dflt).
Proof.
  intros w e w' H.
  destruct d; inversion H; apply last_consumed_other; discriminate.
Qed.

Lemma aborting_pointer_get : aborting pointer_get.
Proof.
  intros w e w' H. unfold pointer_get in H.
  destruct (pointer (store w)); inversion H.
  apply last_consumed_other. discriminate.
Qed.

Lemma aborting_save on_save batch : aborting (save on_save batch).
Proof. intros w e w' H. discriminate. Qed.

Lemma aborting_get_audit_logs self cursor from_date to_date :
  aborting (get_audit_logs self cursor from_date to_date).
Proof.
  unfold get_audit_logs. apply (aborting_bind sink_save).
  - destruct cursor;
      (apply stepping_bind; [apply stepping_logger_log|]; intros _;
       apply stepping__get).
  - destruct cursor;
      (apply (aborting_bind sink_save);
       [apply stepping_logger_log | apply aborting_logger_log|]; intros _;
       apply aborting__get).
  - intros result.
    apply (aborting_bind sink_save);
      [apply stepping_dict_get | apply aborting_dict_get|]. intros c.
    apply (aborting_bind sink_save);
      [apply stepping_dict_get | apply aborting_dict_get|]. intros es.
    apply aborting_ret.
Qed.

Lemma aborting_collect_turn on_save client now cursor :
  aborting (collect_turn on_save client now cursor).
Proof.
  unfold collect_turn.
  apply (aborting_bind on_save);
    [apply stepping_pointer_get | apply aborting_pointer_get|]. intros p.
  apply (aborting_bind on_save);
    [apply stepping_get_audit_logs | apply aborting_get_audit_logs|]. intros log.
  apply (aborting_bind on_save);
    [apply stepping_save | apply aborting_save|]. intros _.
  destruct (Types.cursor log); apply aborting_ret.
Qed.

Lemma aborting_collect on_save self : aborting (collect on_save self).
Proof.
  intros w e w' H. rewrite collect_eq in H.
  apply (aborting_iterate on_save) in H.
  - intros r He. destruct (H r He) as (Hstatus & used & Hused).
    split; [exact Hstatus|]. exists used. rewrite <- Hused.
    unfold started. now destruct (pointer (store w)).
  - intros c. apply stepping_collect_turn.
  - intros c. apply aborting_collect_turn.
Qed.

(** ** Whole passes *)

Lemma keeps_pointer_sink_save : keeps_pointer sink_save.
Proof. intros b s H. exact H. Qed.

Lemma leaves_pointer_sink_save : leaves_pointer sink_save.
Proof. intros b s. reflexivity. Qed.

Lemma leaves_keeps on_save : leaves_pointer on_save -> keeps_pointer on_save.
Proof. intros H b s Hs. now rewrite H. Qed.

Lemma deliver_pointer on_save s bs :
  leaves_pointer on_save -> pointer (deliver on_save s bs) = pointer s.
Proof.
  intros H. revert s. induction bs as [|b bs IH]; intros s; simpl; [reflexivity|].
  now rewrite IH, H.
Qed.

Lemma collect_store on_save self w r w' :
  collect on_save self w = (r, w') ->
  exists tr,
    trace w' = trace w ++ tr /\
    store w' = deliver on_save (store (started w)) (batches tr) /\
    (leaves_pointer on_save ->
     pointer (store w') = Some (default (lookback_seed w) (pointer (store w)))).
Proof.
  rewrite collect_eq. intros H.
  apply stepping_collect_loop in H as (tr & used & Htr & _ & _ & Hs).
  exists tr. rewrite started_trace in Htr. repeat split; try assumption.
  intros Hleave. now rewrite Hs, deliver_pointer, started_pointer.
Qed.

Lemma sleeps_retry_rounds self u params ds :
  sleeps (mjoin (map (retry_round self u params) ds)) = ds.
Proof. induction ds as [|d ds IH]; simpl; [reflexivity|]. now rewrite IH. Qed.

Lemma gets_retry_rounds self u params ds :
  gets (mjoin (map (retry_round self u params) ds)) =
  replicate (length ds) (EGet u (headers self) params).
Proof. induction ds as [|d ds IH]; simpl; [reflexivity|]. now rewrite IH. Qed.

Lemma steps_trace on_save w w' :
  steps on_save w w' -> exists tr, trace w' = trace w ++ tr.
Proof. intros (tr & _ & Htr & _). eauto. Qed.

Lemma _get_starts self u params w r w' :
  _get self (JStr u) params w = (r, w') ->
  exists tr, trace w' = trace w ++ EGet u (headers self) params :: tr.
Proof.
  rewrite _get_eq. cbv zeta.
  destruct (replies w) as [|[x|what] rs].
  - intros H. inversion H. exists []. reflexivity.
  - destruct ((400 <=? status_code x) && (status_code x <? 600)).
    + destruct (status_code x =? 429).
      * destruct (retry self).
        -- destruct (Py.int _) as [secs|].
           ++ destruct (sleep_error _ secs).
              ** intros H. inversion H. eexists [_]. simpl.
                 now rewrite <- app_assoc.
              ** intros H. apply (stepping__get sink_save) in H.
                 apply steps_trace in H as (tr & ->). simpl.
                 eexists (_ :: _ :: tr). now rewrite <- !app_assoc.
           ++ intros H. inversion H. eexists [_]. simpl. now rewrite <- app_assoc.
        -- intros H. inversion H. eexists [_]. simpl. now rewrite <- app_assoc.
      * intros H. inversion H. exists []. reflexivity.
    + destruct (resp_json x); intros H; inversion H; exists []; reflexivity.
  - intros H. inversion H. exists []. reflexivity.
Qed.

Lemma get_audit_logs_first_starts self from_date to_date w r w' :
  get_audit_logs self JNull from_date to_date w = (r, w') ->
  exists tr,
    trace w' = trace w ++
      ELog DEBUG "Collecting first page with provided"
        (<["to_date" := of_opt_str to_date]>
           (<["from_date" := of_opt_str from_date]> ∅))
      :: EGet (audit_logs_url self) (headers self)
           (Some (created_at_params from_date to_date))
      :: tr.
Proof.
  unfold get_audit_logs. intros H.
  apply bind_inv in H as [(e & H & _)|(result & w1 & H1 & H2)].
  - unfold bind at 1 in H. unfold logger_log at 1 in H. cbv beta iota in H.
    apply _get_starts in H as (tr & ->). exists tr. simpl.
    now rewrite <- app_assoc.
  - unfold bind at 1 in H1. unfold logger_log at 1 in H1. cbv beta iota in H1.
    apply _get_starts in H1 as (tr & Htr).
    assert (steps sink_save w1 w') as Hrest.
    { revert H2. apply stepping_bind; [apply stepping_dict_get|]. intros c.
      apply stepping_bind; [apply stepping_dict_get|]. intros es.
      apply stepping_ret. }
    apply steps_trace in Hrest as (tr' & ->). rewrite Htr. simpl.
    exists (tr ++ tr'). now rewrite <- !app_assoc.
Qed.

Lemma collect_first_turn_starts on_save client now p w r w' :
  pointer (store w) = Some p ->
  while_true (collect_turn on_save client now) JNull w = (r, w') ->
  exists tr,
    trace w' = trace w ++
      ELog DEBUG "Collecting first page with provided"
        (<["to_date" := JStr now]> (<["from_date" := JStr p]> ∅))
      :: EGet (audit_logs_url client) (headers client)
           (Some (created_at_params (Some p) (Some now)))
      :: tr.
Proof.
  intros Hp. rewrite while_true_unfold by apply collect_turn_consumes.
  assert (forall c w1, collect_turn on_save client now JNull w = (c, w1) ->
            exists tr,
              trace w1 = trace w ++
                ELog DEBUG "Collecting first page with provided"
                  (<["to_date" := JStr now]> (<["from_date" := JStr p]> ∅))
                :: EGet (audit_logs_url client) (headers client)
                     (Some (created_at_params (Some p) (Some now)))
                :: tr) as Hturn.
  { intros c w1. unfold collect_turn. unfold bind at 1. unfold pointer_get at 1.
    rewrite Hp. cbv beta iota. intros H.
    apply bind_inv in H as [(e & H & _)|(log & w2 & H1 & H2)].
    - now apply get_audit_logs_first_starts in H.
    - apply get_audit_logs_first_starts in H1 as (tr & Htr).
      assert (steps on_save w2 w1) as Hrest.
      { revert H2. apply stepping_bind; [apply stepping_save|]. intros _.
        destruct (Types.cursor log); apply stepping_ret. }
      apply steps_trace in Hrest as (tr' & ->). rewrite Htr.
      exists (tr ++ tr'). now rewrite <- !app_assoc. }
  destruct (collect_turn on_save client now JNull w) as [[[c|[]]|e] w1] eqn:E;
    intros H.
  - destruct (Hturn _ _ eq_refl) as (tr & Htr).
    apply stepping_collect_loop in H. apply steps_trace in H as (tr' & ->).
    rewrite Htr. exists (tr ++ tr'). now rewrite <- !app_assoc.
  - inversion H; subst. eapply Hturn. reflexivity.
  - inversion H; subst. eapply Hturn. reflexivity.
Qed.

Section Chain.

Variable on_save : Json -> Store -> Store.
Variable client : Client.
Variable now : string.
Hypothesis on_save_keeps : keeps_pointer on_save.

(** Over a chain of pages the loop saves each page and goes on with the
    cursor of the last one. *)
Lemma collect_loop_chained rs fs cs :
  chained rs fs cs ->
  forall cur q p w rest,
    turn_request client now p cur = Some q ->
    pointer (store w) = Some p ->
    replies w = map Answer rs ++ rest ->
    exists w1 tr,
      while_true (collect_turn on_save client now) cur w =
        while_true (collect_turn on_save client now) (cursor_after cur cs) w1 /\
      trace w1 = trace w ++ tr /\
      batches tr = map page_entries fs /\
      sleeps tr = [] /\
      replies w1 = rest /\
      is_Some (pointer (store w1)) /\
      store w1 = deliver on_save (store w) (map page_entries fs).
Proof.
  induction 1 as [|r f c rs fs cs Hpage Hnext Hc Hrest IH];
    intros cur q p w rest Hq Hp Hw.
  - exists w, []. simpl in *. rewrite app_nil_r. repeat split; eauto.
  - simpl in Hw.
    destruct (collect_turn_page on_save client now cur q p w r _ f Hq Hp Hw Hpage)
      as (w1 & tr1 & Hturn & Htr1 & _ & _ & Hb1 & Hsl1 & Hr1 & _ & Hs1).
    destruct (on_save_keeps (page_entries f) (store w)) as [p1 Hp1];
      [rewrite Hp; eauto|]. rewrite <- Hs1 in Hp1.
    destruct (IH (JStr c) (EGet c (headers client) None) p1 w1 rest eq_refl Hp1 Hr1)
      as (w2 & tr & Hloop & Htr & Hb & Hsl & Hr & Hp2 & Hs).
    exists w2, (tr1 ++ tr).
    rewrite while_true_unfold by apply collect_turn_consumes.
    rewrite Hturn, (next_cursor_more _ _ Hnext Hc). repeat split.
    + rewrite Hloop. f_equal. unfold cursor_after.
      destruct cs as [|c' cs']; [reflexivity|].
      change (last (c :: c' :: cs')) with (last (c' :: cs')).
      destruct (last (c' :: cs')) eqn:E; [reflexivity|].
      now apply last_None in E.
    + now rewrite Htr, Htr1, app_assoc.
    + rewrite batches_app, Hb1, Hb. reflexivity.
    + rewrite sleeps_app, Hsl1, Hsl. reflexivity.
    + exact Hr.
    + exact Hp2.
    + rewrite Hs, Hs1. reflexivity.
Qed.

End Chain.

(** A turn of the paging loop whose request fails raises what [_get]
    raised, in the world [_get] left. *)
Lemma collect_turn_failed on_save client now cur u ps p w r rs :
  turn_request client now p cur = Some (EGet u (headers client) ps) ->
  pointer (store w) = Some p ->
  replies w = Answer r :: rs ->
  400 <= status_code r < 600 -> status_code r <> 429 ->
  exists w',
    collect_turn on_save client now cur w = (Raise (RequestFailedException r), w') /\
    replies w' = rs /\ store w' = store w /\
    batches (trace w') = batches (trace w) /\
    sleeps (trace w') = sleeps (trace w).
Proof.
  intros Hq Hp Hw Hrange Hne.
  unfold collect_turn. unfold bind at 1. unfold pointer_get at 1. rewrite Hp.
  cbv beta iota. unfold bind at 1. unfold get_audit_logs. unfold bind at 1.
  destruct cur as [| | |c| |]; try discriminate; inversion Hq; subst; clear Hq;
    unfold bind at 1; unfold logger_log at 1; cbv beta iota;
    rewrite _get_failed with (r := r) (rs := rs) by (assumption || exact Hw);
    (eexists; split; [reflexivity|]); cbn [after store trace replies emit];
    rewrite !sleeps_app, !batches_app; simpl; rewrite ?app_nil_r; repeat split.
Qed.

Lemma turn_request_after client now p cs :
  exists u ps,
    turn_request client now p (cursor_after JNull cs) =
      Some (EGet u (headers client) ps).
Proof.
  unfold cursor_after. destruct (last cs); simpl; eauto.
Qed.

(** After any chain of pages, a failing reply ends the pass with its
    [RequestFailedException]: the pages were saved, nothing more is
    requested. *)
Lemma failed_request_aborts_pass on_save self w rs fs cs r rest :
  keeps_pointer on_save ->
  chained rs fs cs ->
  400 <= status_code r < 600 -> status_code r <> 429 ->
  replies w = map Answer rs ++ Answer r :: rest ->
  exists w',
    collect on_save self w = (Raise (RequestFailedException r), w') /\
    replies w' = rest /\
    batches (trace w') = batches (trace w) ++ map page_entries fs /\
    store w' = deliver on_save (store (started w)) (map page_entries fs).
Proof.
  intros Hkeep Hchain Hrange Hne Hw. rewrite collect_eq.
  destruct (turn_request_after (client_of self) (pass_now w)
              (default (lookback_seed w) (pointer (store w))) [])
    as (u0 & ps0 & Hq0).
  destruct (collect_loop_chained on_save (client_of self) (pass_now w) Hkeep
              rs fs cs Hchain JNull _ _ (started w) (Answer r :: rest) Hq0
              (started_pointer w))
    as (w1 & tr & Hloop & Htr & Hb & _ & Hr & [p1 Hp1] & Hs).
  { now rewrite started_replies. }
  rewrite Hloop. rewrite while_true_unfold by apply collect_turn_consumes.
  destruct (turn_request_after (client_of self) (pass_now w) p1 cs)
    as (u & ps & Hq).
  destruct (collect_turn_failed on_save (client_of self) (pass_now w) _ u ps p1
              w1 r rest Hq Hp1 Hr Hrange Hne)
    as (w' & Hturn & Hr' & Hs' & Hb' & _).
  exists w'. rewrite Hturn. repeat split.
  - exact Hr'.
  - rewrite Hb', Htr, started_trace, batches_app, Hb. reflexivity.
  - now rewrite Hs', Hs.
Qed.

(** * The properties of the specification *)

Lemma created_at_params_overwritten from_date to_date :
  created_at_params from_date to_date = {[ "filter[created_at][]" := to_date ]}.
Proof. unfold created_at_params. rewrite insert_insert_eq. apply insert_empty. Qed.

(** Claim C1, a defect of the code.  The first request of a pass is meant
    to carry both ends of the date range.  On the two-page run of the
    test suite, whose stored pointer is 2023-12-06T00:00:00Z and whose
    clock reads 2023-12-08T09:30:00, the query of the first request
    holds a single pair, the upper end: the lower end, written first
    under the same key of the [params] dictionary, is gone. *)
Theorem C1_first_request_loses_from_date :
  pointer (store (started two_pages)) = Some "2023-12-06T00:00:00Z" /\
  pass_now two_pages = "2023-12-08T09:30:00Z" /\
  exists hdrs params,
    head (gets (trace (snd (collect sink_save test_connector two_pages)))) =
      Some (EGet "https://orgname.zendesk.com/api/v2/audit_logs" hdrs params) /\
    query_pairs params = [("filter[created_at][]", "2023-12-08T09:30:00Z")].
Proof.
  split; [reflexivity|]. split; [reflexivity|].
  eexists _, _. split; vm_compute; reflexivity.
Qed.

(** Claim C2.  Take any script of pages in which every page but the last
    carries a non-empty [next_page] and the last one carries none, an
    empty string or null, and a [save] that never removes the stored
    pointer.  The pass returns normally.  Its requests are one request
    to the audit-log URL with the date parameters, then one request per
    cursor, each to the cursor URL and with no parameters.  Each page is
    saved as one batch right after the request that fetched it, in the
    order received, nothing is slept, and the replies scripted after
    the last page are left unread. *)
Theorem C2_pagination on_save self w rs fs cs rest :
  keeps_pointer on_save ->
  paged rs fs cs ->
  replies w = map Answer rs ++ rest ->
  exists w' tr,
    collect on_save self w = (Ok tt, w') /\
    trace w' = trace w ++ tr /\
    gets tr =
      EGet (audit_logs_url (client_of self)) (headers (client_of self))
        (Some (created_at_params
                 (Some (default (lookback_seed w) (pointer (store w))))
                 (Some (pass_now w))))
      :: map (fun c => EGet c (headers (client_of self)) None) cs /\
    batches tr = map page_entries fs /\
    io tr = exchanges (gets tr) fs /\
    sleeps tr = [] /\
    replies w' = rest /\
    length fs = S (length cs).
Proof.
  intros Hkeep Hpaged Hw. rewrite collect_eq.
  destruct (collect_loop_paged on_save (client_of self) (pass_now w) Hkeep
              rs fs cs Hpaged JNull _ _ (started w) rest eq_refl
              (started_pointer w))
    as (w' & tr & Hloop & Htr & Hio & Hg & Hb & Hsl & Hr & _ & _).
  { now rewrite started_replies. }
  exists w', tr. rewrite started_trace in Htr. rewrite Hg.
  repeat split; try assumption. now apply paged_length in Hpaged.
Qed.

Lemma C2_pagination_witness :
  keeps_pointer sink_save /\
  paged [ok_reply fixture_001; ok_reply fixture_002] [fixture_001; fixture_002]
    [page_2_url] /\
  exists w' tr,
    collect sink_save test_connector two_pages = (Ok tt, w') /\
    trace w' = trace two_pages ++ tr /\
    gets tr =
      [EGet "https://orgname.zendesk.com/api/v2/audit_logs" (headers test_client)
         (Some {[ "filter[created_at][]" := Some "2023-12-08T09:30:00Z" ]});
       EGet page_2_url (headers test_client) None] /\
    batches tr = [page_entries fixture_001; page_entries fixture_002] /\
    replies w' = [].
Proof.
  assert (paged [ok_reply fixture_001; ok_reply fixture_002]
            [fixture_001; fixture_002] [page_2_url]) as Hpaged.
  { apply paged_more; [split; reflexivity | reflexivity | discriminate |].
    apply paged_last; [split; reflexivity | left; reflexivity]. }
  split; [exact keeps_pointer_sink_save|]. split; [exact Hpaged|].
  destruct (C2_pagination sink_save test_connector two_pages _ _ _ []
              keeps_pointer_sink_save Hpaged eq_refl)
    as (w' & tr & Hrun & Htr & Hg & Hb & _ & _ & Hr & _).
  exists w', tr. repeat split; assumption.
Defined.

(** Claim C3, amended.  A successful pass does not store [now]:
    [collect] writes the pointer only when it seeds it at the start.
    After the pass the store is the one the loop started with, with
    every saved batch passed through [save] in order; so when [save]
    leaves the pointer alone, the stored pointer is the one the pass
    started from, that is the one stored before or else the look-back
    seed. *)
Theorem C3_watermark_after_pass on_save self w w' :
  collect on_save self w = (Ok tt, w') ->
  exists tr,
    trace w' = trace w ++ tr /\
    store w' = deliver on_save (store (started w)) (batches tr) /\
    (leaves_pointer on_save ->
     pointer (store w') = Some (default (lookback_seed w) (pointer (store w)))).
Proof. apply collect_store. Qed.

Lemma C3_counterexample :
  exists w',
    collect sink_save test_connector two_pages = (Ok tt, w') /\
    pass_now two_pages = "2023-12-08T09:30:00Z" /\
    pointer (store w') = Some "2023-12-06T00:00:00Z" /\
    pointer (store w') <> Some (pass_now two_pages).
Proof.
  eexists. split; [vm_compute; reflexivity|].
  split; [reflexivity|]. split; [reflexivity|]. discriminate.
Qed.

Lemma C3_watermark_after_pass_witness :
  exists w',
    collect sink_save test_connector two_pages = (Ok tt, w') /\
    store w' =
      deliver sink_save (store (started two_pages))
        [page_entries fixture_001; page_entries fixture_002] /\
    pointer (store w') = Some "2023-12-06T00:00:00Z".
Proof.
  eexists. split; [vm_compute; reflexivity|].
  match goal with
  | |- store ?w' = _ /\ _ =>
      destruct (C3_watermark_after_pass sink_save test_connector two_pages w')
        as (tr & Htr & Hs & Hp); [vm_compute; reflexivity|]
  end.
  split; [reflexivity|]. exact (Hp leaves_pointer_sink_save).
Defined.

(** Claim C4, amended.  A failing reply (status 4xx or 5xx other than
    429) that comes after any number of pages ends the pass with a
    [RequestFailedException] carrying it: the pages before it were
    saved, nothing is requested after it.  And whenever a pass ends in
    an exception, that exception is neither a rate limit nor a cut-off
    loop, a [RequestFailedException] carries the last reply that was
    read, and the store is the one the loop started with, with the
    batches saved so far passed through [save]; so when [save] leaves
    the pointer alone, the stored pointer is the one the pass started
    from: the one stored before the pass, or the look-back seed written
    at the start when none was stored. *)
Theorem C4_watermark_after_error on_save self w :
  (forall rs fs cs r rest,
     keeps_pointer on_save ->
     chained rs fs cs ->
     400 <= status_code r < 600 -> status_code r <> 429 ->
     replies w = map Answer rs ++ Answer r :: rest ->
     exists w',
       collect on_save self w = (Raise (RequestFailedException r), w') /\
       replies w' = rest /\
       batches (trace w') = batches (trace w) ++ map page_entries fs) /\
  (forall e w',
     collect on_save self w = (Raise e, w') ->
     benign e /\
     last_consumed e w w' /\
     exists tr,
       trace w' = trace w ++ tr /\
       store w' = deliver on_save (store (started w)) (batches tr) /\
       (leaves_pointer on_save ->
        pointer (store w') =
          Some (default (lookback_seed w) (pointer (store w))))).
Proof.
  split.
  - intros rs fs cs r rest Hkeep Hchain Hrange Hne Hw.
    destruct (failed_request_aborts_pass on_save self w rs fs cs r rest
                Hkeep Hchain Hrange Hne Hw) as (w' & Hrun & Hr & Hb & _).
    exists w'. now repeat split.
  - intros e w' H. split; [eapply raises_benign_collect, H|].
    split; [eapply aborting_collect, H|]. eapply collect_store, H.
Qed.

Lemma C4_counterexample :
  exists w',
    collect sink_save test_connector first_run_failing =
      (Raise (RequestFailedException (bare_reply 500)), w') /\
    pointer (store first_run_failing) = None /\
    pointer (store w') = Some "2023-12-07T09:30:00Z".
Proof. eexists. split; [vm_compute; reflexivity|]. split; reflexivity. Qed.

Lemma C4_watermark_after_error_witness :
  keeps_pointer sink_save /\
  chained [ok_reply fixture_001] [fixture_001] [page_2_url] /\
  400 <= status_code (bare_reply 503) < 600 /\
  exists w',
    collect sink_save test_connector failing_on_page_2 =
      (Raise (RequestFailedException (bare_reply 503)), w') /\
    replies w' = [Answer (ok_reply fixture_002)] /\
    batches (trace w') = [page_entries fixture_001] /\
    last_consumed (RequestFailedException (bare_reply 503)) failing_on_page_2 w' /\
    pointer (store w') = Some "2023-12-06T00:00:00Z".
Proof.
  assert (chained [ok_reply fixture_001] [fixture_001] [page_2_url]) as Hchain.
  { apply chained_cons; [split; reflexivity | reflexivity | discriminate |].
    apply chained_nil. }
  assert (400 <= status_code (bare_reply 503) < 600) as Hrange by (simpl; lia).
  split; [exact keeps_pointer_sink_save|]. split; [exact Hchain|].
  split; [exact Hrange|].
  destruct (C4_watermark_after_error sink_save test_connector failing_on_page_2)
    as (Hforward & Hbackward).
  destruct (Hforward _ _ _ (bare_reply 503) [Answer (ok_reply fixture_002)]
              keeps_pointer_sink_save Hchain Hrange)
    as (w' & Hrun & Hr & Hb); [discriminate | reflexivity|].
  destruct (Hbackward _ _ Hrun) as (_ & Hlast & tr & _ & _ & Hp).
  exists w'. split; [exact Hrun|]. split; [exact Hr|]. split; [exact Hb|].
  split; [exact Hlast|]. exact (Hp leaves_pointer_sink_save).
Defined.

(** Claim C5, amended.  With retries on, any number of 429 replies whose
    [Retry-After] header is absent or holds an integer literal that
    [int] accepts and whose value is a length that [time.sleep] takes
    (from 0 to the longest sleep of the platform's timer, itself no
    more than 9223372036 seconds) are absorbed one after the other: for
    each of them the same request (URL, headers, parameters) is sent, a
    warning is logged and the client sleeps the number of seconds of
    the header, 1 when there is no header; after them the call goes on
    as the same call on the rest of the script, and when the next reply
    is one that [raise_for_status] lets through, the request is sent
    once more and its decoded body is returned.  Nothing is claimed for
    a header that is not such a literal. *)
Theorem C5_retry_on_rate_limit self u params rs ds rest w :
  retry self = true ->
  Forall2 (asks_to_wait (longest_sleep w)) rs ds ->
  replies w = map Answer rs ++ rest ->
  let rounds := mjoin (map (retry_round self u params) ds) in
  _get self (JStr u) params w = _get self (JStr u) params (after rounds rest w) /\
  sleeps rounds = ds /\
  gets rounds = replicate (length rs) (EGet u (headers self) params) /\
  (forall r decoded rest',
     rest = Answer r :: rest' ->
     raise_for_status r = None ->
     resp_json r = Some decoded ->
     _get self (JStr u) params w =
       (Ok (Types.mkHTTPResponse (resp_headers r) decoded),
        after (rounds ++ [EGet u (headers self) params]) rest' w)).
Proof.
  intros Hretry Hrs Hw rounds.
  assert (_get self (JStr u) params w =
          _get self (JStr u) params (after rounds rest w)) as Hrun
    by now apply _get_retries with (rs := rs).
  split; [exact Hrun|]. split; [apply sleeps_retry_rounds|]. split.
  - subst rounds. rewrite gets_retry_rounds. f_equal.
    symmetry. eapply Forall2_length, Hrs.
  - intros r decoded rest' -> Hok Hjson. rewrite Hrun.
    rewrite (_get_served self u params r decoded rest') by trivial.
    unfold after. simpl. now rewrite <- app_assoc.
Qed.

Lemma C5_retry_on_rate_limit_witness :
  retry test_client = true /\
  Forall2 (asks_to_wait (longest_sleep retried_twice))
    [rate_limit_reply (Some "66"); rate_limit_reply None] [66; 1] /\
  exists w',
    _get test_client (JStr page_2_url) None retried_twice =
      (Ok (Types.mkHTTPResponse ∅ (JObj fixture_002)), w') /\
    sleeps (trace w') = [66; 1] /\
    gets (trace w') = replicate 3 (EGet page_2_url (headers test_client) None) /\
    replies w' = [].
Proof.
  assert (Forall2 (asks_to_wait (longest_sleep retried_twice))
            [rate_limit_reply (Some "66"); rate_limit_reply None] [66; 1]) as Hrs.
  { constructor; [|constructor; [|constructor]].
    - split; [reflexivity|]. split; [vm_compute; intuition discriminate|].
      right. exists "66". now split.
    - split; [reflexivity|]. split; [vm_compute; intuition discriminate|].
      left. now split. }
  split; [reflexivity|]. split; [exact Hrs|].
  destruct (C5_retry_on_rate_limit test_client page_2_url None _ _
              [Answer (ok_reply fixture_002)] retried_twice eq_refl Hrs eq_refl)
    as (_ & _ & _ & Hserved).
  eexists. split; [apply (Hserved (ok_reply fixture_002) _ [] eq_refl eq_refl eq_refl)|].
  repeat split.
Defined.

Lemma C5_counterexample :
  exists w',
    retry test_client = true /\
    _get test_client (JStr page_2_url) None retry_after_a_date =
      (Raise ValueError, w') /\
    sleeps (trace w') = [] /\
    gets (trace w') = [EGet page_2_url (headers test_client) None] /\
    replies w' = [Answer (ok_reply fixture_002)].
Proof.
  eexists. split; [reflexivity|]. split; [vm_compute; reflexivity|]. repeat split.
Qed.

(** Claim C6.  With retries off, a request answered by a 429 raises
    [RateLimitException] carrying that response at once: one request,
    one warning, no sleep.  A paging loop run with such a client ends
    there with that exception, without any sleep or save, and leaves
    the store, hence the pointer, as it was. *)
Theorem C6_rate_limited_without_retry self u params r rs w :
  retry self = false ->
  status_code r = 429 ->
  replies w = Answer r :: rs ->
  _get self (JStr u) params w =
    (Raise (RateLimitException r),
     after [EGet u (headers self) params;
            ELog WARNING "Rate-limit was exceeded during request" ∅] rs w) /\
  forall on_save now cur q p,
    turn_request self now p cur = Some q ->
    pointer (store w) = Some p ->
    exists w',
      while_true (collect_turn on_save self now) cur w =
        (Raise (RateLimitException r), w') /\
      store w' = store w /\
      gets (trace w') = gets (trace w) ++ [q] /\
      sleeps (trace w') = sleeps (trace w) /\
      batches (trace w') = batches (trace w) /\
      replies w' = rs.
Proof.
  intros Hretry Hst Hw.
  assert (forall url ps w0,
            replies w0 = Answer r :: rs ->
            _get self (JStr url) ps w0 =
            (Raise (RateLimitException r),
             after [EGet url (headers self) ps;
                    ELog WARNING "Rate-limit was exceeded during request" ∅] rs w0))
    as Hget.
  { intros url ps w0 Hw0. rewrite _get_eq. cbv zeta.
    rewrite Hw0, Hst, Hretry. simpl. unfold after, emit, set_replies. simpl.
    now rewrite <- app_assoc. }
  split; [now apply Hget|].
  intros on_save now cur q p Hq Hp.
  rewrite while_true_unfold by apply collect_turn_consumes.
  unfold collect_turn. unfold bind at 1. unfold pointer_get at 1. rewrite Hp.
  cbv beta iota. unfold bind at 1. unfold get_audit_logs. unfold bind at 1.
  destruct cur as [| | |c| |]; try discriminate; inversion Hq; subst q; clear Hq;
    unfold bind at 1; unfold logger_log at 1; cbv beta iota;
    rewrite Hget by exact Hw;
    (eexists; split; [reflexivity|]); cbn [after store trace replies emit];
    rewrite !gets_app, !sleeps_app, !batches_app; simpl;
    rewrite ?app_nil_r; repeat split.
Qed.

Lemma C6_rate_limited_without_retry_witness :
  retry no_retry_client = false /\
  status_code (rate_limit_reply (Some "66")) = 429 /\
  fst (_get no_retry_client (JStr page_2_url) None rate_limited_once) =
    Raise (RateLimitException (rate_limit_reply (Some "66"))) /\
  exists w',
    while_true (collect_turn sink_save no_retry_client "2023-12-08T09:30:00Z")
      JNull rate_limited_once =
      (Raise (RateLimitException (rate_limit_reply (Some "66"))), w') /\
    store w' = store rate_limited_once /\
    sleeps (trace w') = [] /\
    replies w' = [Answer (ok_reply fixture_002)].
Proof.
  destruct (C6_rate_limited_without_retry no_retry_client page_2_url None
              (rate_limit_reply (Some "66")) [Answer (ok_reply fixture_002)]
              rate_limited_once eq_refl eq_refl eq_refl) as (Hget & Hloop).
  split; [reflexivity|]. split; [reflexivity|].
  split; [now rewrite Hget|].
  destruct (Hloop sink_save "2023-12-08T09:30:00Z" JNull _ "2023-12-06T00:00:00Z"
              eq_refl eq_refl) as (w' & Hrun & Hs & _ & Hsl & _ & Hr).
  exists w'. repeat split; assumption.
Defined.

(** Claim C7, amended.  A reply whose status lies in 400..599 and is not
    429 makes [_get] raise [RequestFailedException] carrying that
    response right after the one request, whatever the retry flag; the
    rest of the script is left unread. *)
Theorem C7_request_failed self u params r rs w :
  400 <= status_code r < 600 ->
  status_code r <> 429 ->
  replies w = Answer r :: rs ->
  _get self (JStr u) params w =
    (Raise (RequestFailedException r),
     after [EGet u (headers self) params] rs w).
Proof. apply _get_failed. Qed.

Lemma C7_request_failed_witness :
  400 <= status_code (bare_reply 503) < 600 /\
  status_code (bare_reply 503) <> 429 /\
  _get test_client (JStr page_2_url) None
    (test_world [Answer (bare_reply 503); Answer (ok_reply fixture_002)] None) =
    (Raise (RequestFailedException (bare_reply 503)),
     after [EGet page_2_url (headers test_client) None]
       [Answer (ok_reply fixture_002)]
       (test_world [Answer (bare_reply 503); Answer (ok_reply fixture_002)] None)).
Proof.
  split; [simpl; lia|]. split; [discriminate|].
  apply C7_request_failed; [simpl; lia | discriminate | reflexivity].
Defined.

Lemma C7_counterexample :
  fst (_get test_client (JStr page_2_url) None multiple_choices) =
    Ok (Types.mkHTTPResponse ∅ (JObj fixture_002)) /\
  fst (_get test_client (JStr page_2_url) None not_modified) =
    Raise JSONDecodeError.
Proof. split; vm_compute; reflexivity. Qed.

(** Claim C10, amended.  For a reply with a 2xx status whose body
    decodes to a dictionary, [get_audit_logs] returns normally, for a
    first request as for a cursor request; when the dictionary has no
    [audit_logs] field the entries are the empty list, and when it has
    no [next_page] field the cursor is [None].  A body that decodes to
    anything but a dictionary is outside the claim: [get_audit_logs]
    then fails. *)
Theorem C10_missing_fields self cur from_date to_date r rs fields w :
  cur = JNull \/ (exists c, cur = JStr c) ->
  200 <= status_code r < 300 ->
  resp_json r = Some (JObj fields) ->
  replies w = Answer r :: rs ->
  exists log w',
    get_audit_logs self cur from_date to_date w = (Ok log, w') /\
    (fields !! "audit_logs" = None -> Types.entries log = JArr []) /\
    (fields !! "next_page" = None -> Types.cursor log = JNull).
Proof.
  intros Hcur Hrange Hjson Hw.
  assert (is_page r fields) as Hpage.
  { split; [|exact Hjson]. unfold raise_for_status.
    destruct (400 <=? status_code r) eqn:E; [apply Z.leb_le in E; lia|]. reflexivity. }
  destruct Hcur as [->|(c & ->)].
  - rewrite (get_audit_logs_first _ _ _ _ _ _ _ Hw Hpage).
    eexists _, _. split; [reflexivity|]. simpl. unfold page_entries, next_cursor.
    split; intros ->; reflexivity.
  - rewrite (get_audit_logs_next _ _ _ _ _ _ _ _ Hw Hpage).
    eexists _, _. split; [reflexivity|]. simpl. unfold page_entries, next_cursor.
    split; intros ->; reflexivity.
Qed.

Lemma C10_missing_fields_witness :
  200 <= status_code (ok_reply ∅) < 300 /\
  exists log w',
    get_audit_logs test_client JNull (Some "2023-12-06T00:00:00Z")
      (Some "2023-12-08T09:30:00Z") empty_body = (Ok log, w') /\
    Types.entries log = JArr [] /\
    Types.cursor log = JNull.
Proof.
  split; [simpl; lia|].
  destruct (C10_missing_fields test_client JNull (Some "2023-12-06T00:00:00Z")
              (Some "2023-12-08T09:30:00Z") (ok_reply ∅) [] ∅ empty_body)
    as (log & w' & Hrun & He & Hc);
    [now left | simpl; lia | reflexivity | reflexivity|].
  exists log, w'. split; [exact Hrun|]. split; [now apply He | now apply Hc].
Defined.

Lemma C10_counterexample :
  200 <= status_code (mkResponse 200 ∅ (Some (JArr []))) < 300 /\
  200 <= status_code (mkResponse 200 ∅ (Some JNull)) < 300 /\
  fst (get_audit_logs test_client JNull (Some "2023-12-06T00:00:00Z")
         (Some "2023-12-08T09:30:00Z") list_body) = Raise AttributeError /\
  fst (get_audit_logs test_client JNull (Some "2023-12-06T00:00:00Z")
         (Some "2023-12-08T09:30:00Z") null_body) = Raise AttributeError.
Proof.
  split; [simpl; lia|]. split; [simpl; lia|]. split; vm_compute; reflexivity.
Qed.

(** Claim C8.  When no pointer is stored and the clock is fixed at [t],
    the first call of the pass to the client is made with [from_date]
    equal to [t] minus one day and [to_date] equal to [t], both in the
    wire format, as its debug record and its request show; that
    [from_date] is also the pointer the pass leaves stored when [save]
    does not touch it. *)
Theorem C8_lookback_seed on_save self w t :
  pointer (store w) = None ->
  (forall n, clock w n = t) ->
  let from_date := Datetime.strftime (t - Datetime.timedelta 1) in
  let now := Datetime.strftime t in
  exists r w' tr,
    collect on_save self w = (r, w') /\
    trace w' = trace w ++
      ELog DEBUG "Collecting first page with provided"
        (<["to_date" := JStr now]> (<["from_date" := JStr from_date]> ∅))
      :: EGet (audit_logs_url (client_of self)) (headers (client_of self))
           (Some (created_at_params (Some from_date) (Some now)))
      :: tr /\
    (leaves_pointer on_save -> pointer (store w') = Some from_date).
Proof.
  intros Hp Hclock from_date now.
  destruct (collect on_save self w) as [r w'] eqn:E.
  destruct (collect_store _ _ _ _ _ E) as (_ & _ & _ & Hleave).
  rewrite collect_eq in E.
  apply collect_first_turn_starts with (p := from_date) in E.
  - destruct E as (tr & Htr). exists r, w', tr. split; [reflexivity|].
    rewrite started_trace in Htr. unfold pass_now in Htr. rewrite Hclock in Htr.
    split; [exact Htr|]. intros Hl. rewrite (Hleave Hl), Hp. simpl.
    unfold lookback_seed. now rewrite Hclock.
  - rewrite started_pointer, Hp. simpl. unfold lookback_seed. now rewrite Hclock.
Qed.

Lemma C8_lookback_seed_witness :
  pointer (store first_run) = None /\
  exists r w' tr,
    collect sink_save test_connector first_run = (r, w') /\
    trace w' = trace first_run ++
      ELog DEBUG "Collecting first page with provided"
        (<["to_date" := JStr "2023-12-08T09:30:00Z"]>
           (<["from_date" := JStr "2023-12-07T09:30:00Z"]> ∅))
      :: EGet "https://orgname.zendesk.com/api/v2/audit_logs" (headers test_client)
           (Some (created_at_params (Some "2023-12-07T09:30:00Z")
                    (Some "2023-12-08T09:30:00Z")))
      :: tr /\
    pointer (store w') = Some "2023-12-07T09:30:00Z".
Proof.
  split; [reflexivity|].
  destruct (C8_lookback_seed sink_save test_connector first_run test_now
              eq_refl (fun _ => eq_refl)) as (r & w' & tr & Hrun & Htr & Hp).
  exists r, w', tr. split; [exact Hrun|]. split; [exact Htr|].
  exact (Hp leaves_pointer_sink_save).
Defined.

(** Claim C9.  A client built without the [retry] keyword has retries
    on; [collect] builds its client that way, for every configuration;
    and no pass ends in a [RateLimitException]. *)
Theorem C9_retries_always_enabled :
  (forall identity username token,
     retry (Client__init__ identity username token None) = true) /\
  (forall self,
     client_of self =
       Client__init__ (Some (identity self)) (username self) (Some (key self)) None) /\
  (forall on_save self w,
     collect on_save self w =
       while_true (collect_turn on_save (client_of self) (pass_now w)) JNull
         (started w)) /\
  (forall on_save self w err,
     fst (collect on_save self w) <> Raise (RateLimitException err)).
Proof.
  split; [reflexivity|]. split; [reflexivity|]. split; [apply collect_eq|].
  intros on_save self w err H.
  destruct (collect on_save self w) as [r w'] eqn:E. simpl in H. subst r.
  apply raises_benign_collect in E as [_ E]. now apply (E err).
Qed.

Lemma C9_retries_always_enabled_witness :
  retry test_client = true /\
  fst (collect sink_save test_connector rate_limited_once) <>
    Raise (RateLimitException (rate_limit_reply (Some "66"))).
Proof.
  destruct C9_retries_always_enabled as (Hretry & _ & _ & Hnever).
  split; [apply Hretry | apply Hnever].
Defined.

(** ** The pass always comes back *)

(** [collect] is never cut off: on every script it returns or raises one
    of the exceptions of the code. *)
Lemma collect_total on_save self w : fst (collect on_save self w) <> Raise Diverged.
Proof.
  destruct (collect on_save self w) as [r w'] eqn:E. simpl. intros ->.
  apply raises_benign_collect in E as [E _]. now apply E.
Qed.

(** ** The runs of the test suite *)

(** [test_collect_rate_limit]: the pass sleeps the 66 seconds asked for
    and then completes. *)
Example test_collect_rate_limit :
  let '(r, w') := collect sink_save test_connector rate_limited_once in
  r = Ok tt /\ sleeps (trace w') = [66].
Proof. vm_compute. split; reflexivity. Qed.

(** [test_collect_pagination]: two requests, four entries saved. *)
Example test_collect_pagination :
  let '(r, w') := collect sink_save test_connector two_pages in
  r = Ok tt /\ length (gets (trace w')) = 2%nat /\
  sink (store w') = [page_entries fixture_001; page_entries fixture_002].
Proof. vm_compute. repeat split. Qed.

(** [test_collect_no_pagination]: one request, one entry saved. *)
Example test_collect_no_pagination :
  let '(r, w') := collect sink_save test_connector first_run in
  r = Ok tt /\ length (gets (trace w')) = 1%nat /\
  sink (store w') = [page_entries fixture_002].
Proof. vm_compute. repeat split. Qed.

(** * Further properties of the client and of a pass *)

(** ** What [_get] returns and raises *)

Lemma _get_not_str self url params w :
  (forall u, url <> JStr u) ->
  _get self url params w = (Raise (TransportError "invalid url"), w).
Proof.
  intros Hurl. unfold _get. unfold bind at 1.
  rewrite while_true_unfold by apply _get_turn_consumes.
  now rewrite _get_turn_not_str.
Qed.

Lemma asks_to_wait_intro limit r secs :
  status_code r = 429 ->
  Py.int (headers_get (resp_headers r) "Retry-After" "1") = Some secs ->
  sleep_error limit secs = None ->
  asks_to_wait limit r secs.
Proof.
  intros Hst Hint Hneg. apply sleep_error_None in Hneg. split; [exact Hst|].
  split; [exact Hneg|]. unfold headers_get in Hint.
  change (Py.lower_str "Retry-After") with "retry-after" in Hint.
  destruct (resp_headers r !! "retry-after") as [v|]; simpl in Hint.
  - right. eauto.
  - left. split; [reflexivity|]. now inversion Hint.
Qed.

Lemma _get_ok_inv self url params w resp w' :
  _get self url params w = (Ok resp, w') ->
  exists u rs ds r rest,
    url = JStr u /\
    Forall2 (asks_to_wait (longest_sleep w)) rs ds /\
    (rs = [] \/ retry self = true) /\
    replies w = map Answer rs ++ Answer r :: rest /\
    raise_for_status r = None /\
    resp_json r = Some (Types.body resp) /\
    Types.headers resp = resp_headers r /\
    w' = after (mjoin (map (retry_round self u params) ds)
                ++ [EGet u (headers self) params]) rest w.
Proof.
  destruct url as [| | |u| |];
    try (rewrite _get_not_str by discriminate; discriminate).
  intros H. exists u. remember (replies w) as l eqn:El. revert w El H.
  induction l as [|y l IH]; intros w El; rewrite _get_eq; cbv zeta; rewrite <- El.
  - discriminate.
  - destruct y as [r|what]; [|discriminate].
    destruct ((400 <=? status_code r) && (status_code r <? 600)) eqn:E1.
    + destruct (status_code r =? 429) eqn:E2; [|discriminate].
      destruct (retry self) eqn:E3; [|discriminate].
      destruct (Py.int _) as [secs|] eqn:E4; [|discriminate].
      destruct (sleep_error _ secs) eqn:E5; [discriminate|].
      intros H. apply IH in H; [|reflexivity]. cbn [longest_sleep emit set_replies] in H.
      destruct H as (rs & ds & r0 & rest & _ & Hrs & _ & Hl & Hok & Hjson & Hh & ->).
      exists (r :: rs), (secs :: ds), r0, rest. repeat split; try assumption.
      * constructor; [|exact Hrs]. apply asks_to_wait_intro; try assumption.
        now apply Z.eqb_eq.
      * now right.
      * simpl in Hl. simpl. now rewrite Hl.
      * unfold after, emit, set_replies. simpl. f_equal.
        now rewrite <- !app_assoc.
    + destruct (resp_json r) as [j|] eqn:E2; [|discriminate].
      intros H. inversion H; subst. exists [], [], r, l. simpl.
      repeat split; try (now left); try assumption.
      unfold raise_for_status. now rewrite E1.
Qed.

Lemma _get_requests self u params w out w' :
  _get self (JStr u) params w = (out, w') ->
  exists tr,
    trace w' = trace w ++ tr /\
    gets tr = replicate (S (length (sleeps tr))) (EGet u (headers self) params).
Proof.
  remember (replies w) as l eqn:El. revert w El.
  induction l as [|y l IH]; intros w El; rewrite _get_eq; cbv zeta; rewrite <- El.
  - intros H. inversion H. exists [EGet u (headers self) params]. now split.
  - destruct y as [r|what];
      [|intros H; inversion H; exists [EGet u (headers self) params]; now split].
    destruct ((400 <=? status_code r) && (status_code r <? 600)).
    + destruct (status_code r =? 429);
        [|intros H; inversion H; exists [EGet u (headers self) params]; now split].
      assert (forall e w0,
                (Raise e : Outcome Types.HTTPResponse,
                 emit (ELog WARNING "Rate-limit was exceeded during request" ∅)
                   (set_replies l (emit (EGet u (headers self) params) w)))
                = (out, w0) ->
                exists tr, trace w0 = trace w ++ tr /\
                  gets tr = replicate (S (length (sleeps tr)))
                              (EGet u (headers self) params)) as Hraise.
      { intros e w0 H. inversion H.
        exists [EGet u (headers self) params;
                ELog WARNING "Rate-limit was exceeded during request" ∅].
        simpl. now rewrite <- app_assoc. }
      destruct (retry self); [|apply Hraise].
      destruct (Py.int _) as [secs|]; [|apply Hraise].
      destruct (sleep_error _ secs); [apply Hraise|].
      intros H. apply IH in H as (tr & Htr & Hg); [|reflexivity].
      exists (retry_round self u params secs ++ tr). split.
      * rewrite Htr. simpl. now rewrite <- !app_assoc.
      * rewrite gets_app, sleeps_app. simpl. now rewrite Hg.
    + destruct (resp_json r); intros H; inversion H;
        exists [EGet u (headers self) params]; now split.
Qed.

Lemma sleep_error_negative limit secs :
  - SLEEP_MAX <= secs < 0 -> sleep_error limit secs = Some ValueError.
Proof.
  intros Hsecs. unfold sleep_error.
  destruct (Z.ltb_spec secs (- SLEEP_MAX)), (Z.ltb_spec SLEEP_MAX secs),
           (Z.ltb_spec secs 0);
    unfold SLEEP_MAX in *; simpl; first [reflexivity | lia].
Qed.

Lemma sleep_error_overflow limit secs :
  secs < - SLEEP_MAX \/ SLEEP_MAX < secs ->
  sleep_error limit secs = Some OverflowError.
Proof.
  intros Hsecs. unfold sleep_error.
  destruct (Z.ltb_spec secs (- SLEEP_MAX)), (Z.ltb_spec SLEEP_MAX secs);
    unfold SLEEP_MAX in *; simpl; first [reflexivity | lia].
Qed.

Lemma sleep_error_timer limit secs :
  0 <= secs <= SLEEP_MAX -> limit < secs ->
  sleep_error limit secs = Some OSError.
Proof.
  intros Hsecs Hlimit. unfold sleep_error.
  destruct (Z.ltb_spec secs (- SLEEP_MAX)), (Z.ltb_spec SLEEP_MAX secs),
           (Z.ltb_spec secs 0), (Z.ltb_spec limit secs);
    unfold SLEEP_MAX in *; simpl; first [reflexivity | lia].
Qed.

(** Property X3.  With retries on, a 429 reply whose [Retry-After]
    header does not give a sleep makes [_get] raise the exception of
    [int] or of [time.sleep] after the one request and the warning:
    [ValueError] when [int] refuses the value or the number is
    negative, [OverflowError] when the number is beyond what
    [time.sleep] converts, [OSError] when the timer of the platform
    refuses the length.  Nothing is slept, the request is not sent
    again and the rest of the script is left unread. *)
Theorem _get_bad_retry_after self u params r rs w e :
  retry self = true ->
  status_code r = 429 ->
  bad_wait (longest_sleep w)
    (headers_get (resp_headers r) "Retry-After" "1") e ->
  replies w = Answer r :: rs ->
  _get self (JStr u) params w =
    (Raise e,
     after [EGet u (headers self) params;
            ELog WARNING "Rate-limit was exceeded during request" ∅] rs w).
Proof.
  intros Hretry Hst Hbad Hw. rewrite _get_eq. cbv zeta.
  rewrite Hw, Hst, Hretry. simpl.
  assert (forall w0 : World,
            w0 = after [EGet u (headers self) params;
                        ELog WARNING "Rate-limit was exceeded during request" ∅]
                   rs w ->
            (Raise e : Outcome Types.HTTPResponse, w0) =
            (Raise e, after _ rs w)) as Hdone by (intros w0 ->; reflexivity).
  destruct Hbad as [Hint|secs Hint Hsecs|secs Hint Hsecs|secs Hint Hsecs Hlimit];
    rewrite Hint;
    [|rewrite (sleep_error_negative _ _ Hsecs)
     |rewrite (sleep_error_overflow _ _ Hsecs)
     |rewrite (sleep_error_timer _ _ Hsecs Hlimit)];
    apply Hdone; unfold after, emit, set_replies; simpl;
    now rewrite <- app_assoc.
Qed.

(** Property X4.  Nothing but a rate limit is retried, whatever the
    retry flag: when [requests.get] itself raises, that exception
    leaves [_get] after the one request, and so does the decoding
    error of a reply that [raise_for_status] lets through but whose
    body is not JSON. *)
Theorem _get_only_retries_rate_limits self u params w :
  (forall what rs,
     replies w = Fault what :: rs ->
     _get self (JStr u) params w =
       (Raise (TransportError what), after [EGet u (headers self) params] rs w)) /\
  (forall r rs,
     replies w = Answer r :: rs ->
     raise_for_status r = None -> resp_json r = None ->
     _get self (JStr u) params w =
       (Raise JSONDecodeError, after [EGet u (headers self) params] rs w)).
Proof.
  split.
  - intros what rs Hw. rewrite _get_eq. cbv zeta. now rewrite Hw.
  - intros r rs Hw Hok Hjson. rewrite _get_eq. cbv zeta. rewrite Hw.
    unfold raise_for_status in Hok.
    destruct ((400 <=? status_code r) && (status_code r <? 600)); [discriminate|].
    now rewrite Hjson.
Qed.

(** Property X5.  [_get] raises [RateLimitException] only with retries
    off: the exception then carries a 429 response, which is the first
    and only reply read, after one request and one warning, and the
    store is as it was. *)
Theorem _get_rate_limit_exception self url params w err w' :
  _get self url params w = (Raise (RateLimitException err), w') ->
  retry self = false /\
  status_code err = 429 /\
  exists u,
    url = JStr u /\
    replies w = Answer err :: replies w' /\
    trace w' = trace w ++
      [EGet u (headers self) params;
       ELog WARNING "Rate-limit was exceeded during request" ∅] /\
    store w' = store w.
Proof.
  intros H.
  destruct (retry self) eqn:Hretry.
  { apply raises_benign__get in H as [_ H]; [|exact Hretry]. now destruct (H err). }
  split; [reflexivity|].
  destruct url as [| | |u| |];
    try (rewrite _get_not_str in H by discriminate; discriminate).
  rewrite _get_eq in H. cbv zeta in H. rewrite Hretry in H.
  destruct (replies w) as [|[r|what] rs] eqn:Hw; try discriminate.
  destruct ((400 <=? status_code r) && (status_code r <? 600)).
  - destruct (status_code r =? 429) eqn:E; [|discriminate].
    inversion H; subst. split; [now apply Z.eqb_eq|].
    exists u. simpl. rewrite <- app_assoc. now repeat split.
  - destruct (resp_json r); discriminate.
Qed.

(** ** What a call leaves alone *)

Lemma quiet_steps_refl w : quiet_steps w w.
Proof. exists [], []. simpl. rewrite app_nil_r. now repeat split. Qed.

Lemma quiet_steps_trans w1 w2 w3 :
  quiet_steps w1 w2 -> quiet_steps w2 w3 -> quiet_steps w1 w3.
Proof.
  intros (tr1 & u1 & Ht1 & Hr1 & Hb1 & Hs1 & Hc1 & Hk1)
         (tr2 & u2 & Ht2 & Hr2 & Hb2 & Hs2 & Hc2 & Hk2).
  exists (tr1 ++ tr2), (u1 ++ u2). repeat split; try congruence.
  - now rewrite Ht2, Ht1, app_assoc.
  - now rewrite Hr1, Hr2, app_assoc.
  - now rewrite batches_app, Hb1, Hb2.
Qed.

Lemma quiet_ret {A} (a : A) : quiet (ret a).
Proof. intros w r w' H. inversion H. apply quiet_steps_refl. Qed.

Lemma quiet_raise {A} e : quiet (@raise A e).
Proof. intros w r w' H. inversion H. apply quiet_steps_refl. Qed.

Lemma quiet_bind {A B} (m : M A) (k : A -> M B) :
  quiet m -> (forall a, quiet (k a)) -> quiet (x <- m ;; k x).
Proof.
  intros Hm Hk w r w' H.
  apply bind_inv in H as [(e & H & _)|(a & w1 & H1 & H2)].
  - eapply Hm, H.
  - eapply quiet_steps_trans; [eapply Hm, H1 | eapply Hk, H2].
Qed.

Lemma quiet_steps_emit e w : batches [e] = [] -> quiet_steps w (emit e w).
Proof. intros He. exists [e], []. now repeat split. Qed.

Lemma quiet_steps_take x rs w :
  replies w = x :: rs -> quiet_steps w (set_replies rs w).
Proof. intros Hw. exists [], [x]. simpl. rewrite app_nil_r. now repeat split. Qed.

Lemma quiet_requests_get url hdrs params : quiet (requests_get url hdrs params).
Proof.
  intros w r w' H. unfold requests_get in H.
  destruct url; try (inversion H; apply quiet_steps_refl).
  cbn [replies emit] in H.
  destruct (replies w) as [|[x|what] rs] eqn:E; inversion H; subst; clear H;
    try (now apply quiet_steps_emit);
    (apply quiet_steps_trans with (emit (EGet s hdrs params) w);
     [now apply quiet_steps_emit | eapply quiet_steps_take; simpl; exact E]).
Qed.

Lemma quiet_logger_log lvl msg extra : quiet (logger_log lvl msg extra).
Proof. intros w r w' H. inversion H. now apply quiet_steps_emit. Qed.

Lemma quiet_time_sleep secs : quiet (time_sleep secs).
Proof.
  intros w r w' H. unfold time_sleep in H.
  destruct (sleep_error _ secs); inversion H;
    [apply quiet_steps_refl | now apply quiet_steps_emit].
Qed.

Lemma quiet_int s : quiet (int s).
Proof. unfold int. destruct (Py.int s); [apply quiet_ret | apply quiet_raise]. Qed.

Lemma quiet_response_json r : quiet (response_json r).
Proof.
  unfold response_json. destruct (resp_json r); [apply quiet_ret | apply quiet_raise].
Qed.

Lemma quiet_dict_get d k dflt : quiet (dict_get d k dflt).
Proof. destruct d; first [apply quiet_ret | apply quiet_raise]. Qed.

Lemma quiet_pointer_get : quiet pointer_get.
Proof.
  intros w r w' H. unfold pointer_get in H.
  destruct (pointer (store w)); inversion H; apply quiet_steps_refl.
Qed.

Lemma quiet_while_true {St A} (body : St -> M (Ctl St A)) s :
  (forall s0, quiet (body s0)) -> quiet (while_true body s).
Proof.
  intros Hbody w r w' H.
  eapply (iterate_rel body quiet_steps quiet_steps_refl quiet_steps_trans);
    [|exact H].
  intros s0 w0 c w1 H0. eapply Hbody, H0.
Qed.

Create HintDb quiet.

#[local] Hint Resolve quiet_ret quiet_raise quiet_requests_get quiet_logger_log
  quiet_time_sleep quiet_int quiet_response_json quiet_dict_get
  quiet_pointer_get : quiet.

Ltac quiet :=
  repeat first
    [ progress eauto with quiet
    | apply quiet_bind; [|intros ?]
    | apply quiet_while_true; intros ?
    | match goal with
      | |- quiet (match ?x with _ => _ end) => destruct x
      | |- quiet (if ?b then _ else _) => destruct b
      end ].

Lemma quiet__get self url params : quiet (_get self url params).
Proof. unfold _get. quiet. Qed.

Lemma quiet_get_audit_logs self cur from_date to_date :
  quiet (get_audit_logs self cur from_date to_date).
Proof.
  unfold get_audit_logs. apply quiet_bind.
  - destruct cur; quiet.
  - intros result. quiet.
Qed.

Lemma next_cursor_not_empty fields : next_cursor fields <> JStr "".
Proof.
  unfold next_cursor. destruct (default JNull (fields !! "next_page")) as [| | |s| |];
    try discriminate.
  destruct s; discriminate.
Qed.

Lemma get_audit_logs_ok_inv self cur from_date to_date w log w' :
  get_audit_logs self cur from_date to_date w = (Ok log, w') ->
  Types.cursor log <> JStr "" /\
  exists rs ds r fields,
    Forall2 (asks_to_wait (longest_sleep w)) rs ds /\
    replies w = map Answer rs ++ Answer r :: replies w' /\
    is_page r fields /\
    Types.cursor log = next_cursor fields /\
    Types.entries log = page_entries fields.
Proof.
  unfold get_audit_logs. intros H.
  apply bind_inv in H as [(e & _ & He)|(result & w1 & H1 & H2)]; [discriminate|].
  assert (exists rs ds r,
            Forall2 (asks_to_wait (longest_sleep w)) rs ds /\
            replies w = map Answer rs ++ Answer r :: replies w1 /\
            raise_for_status r = None /\
            resp_json r = Some (Types.body result)) as (rs & ds & r & Hrs & Hw & Hok & Hjson).
  { destruct cur;
      apply bind_inv in H1 as [(e & _ & He)|([] & w0 & H0 & H1)];
      try discriminate; inversion H0; subst; clear H0;
      apply _get_ok_inv in H1
        as (u & rs & ds & r & rest & _ & Hrs & _ & Hw & Hok & Hjson & _ & ->);
      exists rs, ds, r; repeat split; assumption. }
  destruct (Types.body result) as [| | | | |fields] eqn:Hbody;
    try (unfold dict_get, bind, raise in H2; discriminate).
  unfold dict_get, bind, ret in H2. inversion H2; subst; clear H2. simpl.
  split; [apply next_cursor_not_empty|].
  exists rs, ds, r, fields. repeat split; assumption.
Qed.

(** ** Saved batches come from the replies *)

Lemma saved_from_nil tr used : batches tr = [] -> saved_from tr used.
Proof.
  intros Hb. exists []. rewrite Hb. simpl. repeat split; [constructor|].
  apply sublist_nil_l.
Qed.

Lemma passes_through_refl w : passes_through w w.
Proof.
  exists [], []. simpl. rewrite app_nil_r. repeat split. now apply saved_from_nil.
Qed.

Lemma passes_through_trans w1 w2 w3 :
  passes_through w1 w2 -> passes_through w2 w3 -> passes_through w1 w3.
Proof.
  intros (tr1 & u1 & Ht1 & Hr1 & pages1 & Hb1 & Hp1 & Hs1)
         (tr2 & u2 & Ht2 & Hr2 & pages2 & Hb2 & Hp2 & Hs2).
  exists (tr1 ++ tr2), (u1 ++ u2). repeat split.
  - now rewrite Ht2, Ht1, app_assoc.
  - now rewrite Hr1, Hr2, app_assoc.
  - exists (pages1 ++ pages2). repeat split.
    + now rewrite batches_app, Hb1, Hb2, map_app.
    + now apply Forall_app.
    + rewrite map_app. now apply sublist_app.
Qed.

Lemma quiet_passes_through w w' : quiet_steps w w' -> passes_through w w'.
Proof.
  intros (tr & used & Ht & Hr & Hb & _). exists tr, used.
  repeat split; try assumption. now apply saved_from_nil.
Qed.

Lemma collect_turn_passes_through on_save client now cur w c w' :
  collect_turn on_save client now cur w = (c, w') -> passes_through w w'.
Proof.
  unfold collect_turn. intros H.
  apply bind_inv in H as [(e & H & _)|(p & w1 & H1 & H)].
  { apply quiet_passes_through. eapply quiet_pointer_get, H. }
  apply quiet_pointer_get in H1.
  apply passes_through_trans with w1; [now apply quiet_passes_through|].
  apply bind_inv in H as [(e & H & _)|(log & w2 & H2 & H)].
  { apply quiet_passes_through. eapply quiet_get_audit_logs, H. }
  assert (w' = emit (ESave (Types.entries log))
                 (set_store (on_save (Types.entries log) (store w2)) w2)) as ->.
  { unfold bind, save in H. destruct (Types.cursor log); now inversion H. }
  destruct (quiet_get_audit_logs _ _ _ _ _ _ _ H2) as (tr & _ & Htr & _ & Hb & _).
  apply get_audit_logs_ok_inv in H2
    as (_ & rs & ds & r & fields & _ & Hw & Hpage & _ & Hentries).
  exists (tr ++ [ESave (Types.entries log)]), (map Answer rs ++ [Answer r]).
  repeat split.
  - simpl. now rewrite Htr, app_assoc.
  - simpl. now rewrite Hw, <- app_assoc.
  - exists [(r, fields)]. repeat split.
    + rewrite batches_app, Hb, Hentries. reflexivity.
    + now constructor.
    + simpl. apply sublist_inserts_l. reflexivity.
Qed.

(** Property X8.  Whatever the script and however the pass ends, it
    saves nothing of its own making: the batches saved are the
    [audit_logs] of replies that were read, that [raise_for_status] let
    through and whose body is a dictionary, in the order in which those
    replies came, no reply giving more than one batch. *)
Theorem collect_saves_what_it_reads on_save self w out w' :
  collect on_save self w = (out, w') ->
  exists tr used pages,
    trace w' = trace w ++ tr /\
    replies w = used ++ replies w' /\
    batches tr = map (fun p => page_entries (snd p)) pages /\
    Forall (fun p => is_page (fst p) (snd p)) pages /\
    sublist (map (fun p => Answer (fst p)) pages) used.
Proof.
  rewrite collect_eq. intros H.
  assert (passes_through (started w) w') as (tr & used & Ht & Hr & pages & Hp).
  { eapply (iterate_rel _ passes_through passes_through_refl passes_through_trans);
      [|exact H].
    intros s w0 c w1. apply collect_turn_passes_through. }
  rewrite started_trace in Ht. rewrite started_replies in Hr.
  exists tr, used, pages. now repeat split.
Qed.

(** ** The requests of a pass *)

Lemma iterate_rel_inv {St A} (body : St -> M (Ctl St A))
    (I : St -> Prop) (R : World -> World -> Prop) :
  (forall w, R w w) ->
  (forall w1 w2 w3, R w1 w2 -> R w2 w3 -> R w1 w3) ->
  (forall s w c w', I s -> body s w = (c, w') ->
     R w w' /\ forall s', c = Ok (Continue s') -> I s') ->
  forall n s w r w', I s -> iterate n body s w = (r, w') -> R w w'.
Proof.
  intros Hrefl Htrans Hbody. induction n as [|n IH]; intros s w r w' Hs; simpl.
  - unfold raise. intros H. inversion H; subst. apply Hrefl.
  - unfold bind. destruct (body s w) as [[[s'|a]|e] w1] eqn:E; intros H;
      destruct (Hbody _ _ _ _ Hs E) as [HR Hnext].
    + eapply Htrans; [exact HR|]. eapply IH, H. now apply Hnext.
    + now inversion H; subst.
    + now inversion H; subst.
Qed.

Lemma dict_tail_world (result : Types.HTTPResponse) w out w' :
  (cursor <- dict_get (Types.body result) "next_page" JNull ;;
   let cursor := match cursor with JStr "" => JNull | _ => cursor end in
   entries <- dict_get (Types.body result) "audit_logs" (JArr []) ;;
   ret (Types.mkAuditLogEntries cursor entries)) w = (out, w') ->
  w' = w.
Proof.
  unfold bind, dict_get, ret, raise.
  destruct (Types.body result); intros H; now inversion H.
Qed.

Lemma get_audit_logs_requests self cur from_date to_date w out w' :
  get_audit_logs self cur from_date to_date w = (out, w') ->
  exists tr k,
    trace w' = trace w ++ tr /\
    match cur with
    | JNull =>
        gets tr = replicate (S k)
                    (EGet (audit_logs_url self) (headers self)
                       (Some (created_at_params from_date to_date)))
    | JStr c => gets tr = replicate (S k) (EGet c (headers self) None)
    | _ => gets tr = []
    end.
Proof.
  unfold get_audit_logs. intros H.
  assert (forall u ps lg w1 o1,
            (logger_log DEBUG lg.1 lg.2 ;; _get self (JStr u) ps) w = (o1, w1) ->
            exists tr, trace w1 = trace w ++ tr /\
              gets tr = replicate (S (length (sleeps tr))) (EGet u (headers self) ps))
    as Hget.
  { intros u ps lg w1 o1 H1. unfold bind at 1 in H1. unfold logger_log at 1 in H1.
    cbv beta iota in H1. apply _get_requests in H1 as (tr & Htr & Hg).
    exists (ELog DEBUG lg.1 lg.2 :: tr). split.
    - rewrite Htr. simpl. now rewrite <- app_assoc.
    - exact Hg. }
  apply bind_inv in H as [(e & H & _)|(result & w1 & H1 & H2)].
  - destruct cur as [| | |c| |];
      try (unfold bind at 1 in H; unfold logger_log at 1 in H; cbv beta iota in H;
           rewrite _get_not_str in H by discriminate; inversion H;
           eexists [_], 0%nat; now split).
    + apply (Hget _ _ (_, _)) in H as (tr & Htr & Hg). eauto.
    + apply (Hget _ _ (_, _)) in H as (tr & Htr & Hg). eauto.
  - apply dict_tail_world in H2. subst w'.
    destruct cur as [| | |c| |];
      try (unfold bind at 1 in H1; unfold logger_log at 1 in H1;
           cbv beta iota in H1;
           rewrite _get_not_str in H1 by discriminate; discriminate).
    + apply (Hget _ _ (_, _)) in H1 as (tr & Htr & Hg). eauto.
    + apply (Hget _ _ (_, _)) in H1 as (tr & Htr & Hg). eauto.
Qed.

Lemma collect_turn_requests on_save client now cur w c w' :
  collect_turn on_save client now cur w = (c, w') ->
  exists tr,
    trace w' = trace w ++ tr /\
    (forall c', c = Ok (Continue c') -> c' <> JNull) /\
    match cur with
    | JNull =>
        forall p, pointer (store w) = Some p ->
          exists k,
            gets tr = replicate (S k)
                        (EGet (audit_logs_url client) (headers client)
                           (Some (created_at_params (Some p) (Some now))))
    | _ => Forall (cursor_request client) (gets tr)
    end.
Proof.
  unfold collect_turn. intros H.
  assert (forall tr c0 k,
            gets tr = replicate k (EGet c0 (headers client) None) ->
            Forall (cursor_request client) (gets tr)) as Hcur.
  { intros tr c0 k ->. apply Forall_replicate. now exists c0. }
  apply bind_inv in H as [(e & H & He)|(p & w1 & H1 & H)].
  { unfold pointer_get in H. destruct (pointer (store w)) eqn:Hp; inversion H; subst.
    exists []. rewrite app_nil_r. repeat split; [discriminate|].
    destruct cur; try constructor. discriminate. }
  assert (w1 = w /\ pointer (store w) = Some p) as [-> Hp].
  { unfold pointer_get in H1. destruct (pointer (store w)); now inversion H1. }
  apply bind_inv in H as [(e & H & He)|(log & w2 & H2 & H)].
  - apply get_audit_logs_requests in H as (tr & k & Htr & Hg). subst c.
    exists tr. repeat split; [exact Htr | discriminate|].
    destruct cur as [| | |c0| |];
      [ intros p' Hp'; rewrite Hp in Hp'; inversion Hp'; subst; eauto
      | rewrite Hg; constructor | rewrite Hg; constructor
      | eapply Hcur, Hg
      | rewrite Hg; constructor | rewrite Hg; constructor ].
  - apply get_audit_logs_requests in H2 as (tr & k & Htr & Hg).
    exists (tr ++ [ESave (Types.entries log)]).
    assert (w' = emit (ESave (Types.entries log))
                   (set_store (on_save (Types.entries log) (store w2)) w2) /\
            (forall c', c = Ok (Continue c') -> c' <> JNull)) as [-> Hc].
    { unfold bind, save, ret in H.
      destruct (Types.cursor log); inversion H; subst;
        split; try reflexivity; intros c' Hc'; inversion Hc'; discriminate. }
    repeat split; [simpl; now rewrite Htr, app_assoc | exact Hc|].
    rewrite gets_app. simpl. rewrite app_nil_r.
    destruct cur as [| | |c0| |];
      [ intros p' Hp'; rewrite Hp in Hp'; inversion Hp'; subst; eauto
      | rewrite Hg; constructor | rewrite Hg; constructor
      | eapply Hcur, Hg
      | rewrite Hg; constructor | rewrite Hg; constructor ].
Qed.

Lemma cursor_loop_requests on_save client now n cur w out w' :
  cur <> JNull ->
  iterate n (collect_turn on_save client now) cur w = (out, w') ->
  exists tr, trace w' = trace w ++ tr /\ Forall (cursor_request client) (gets tr).
Proof.
  intros Hcur H.
  eapply (iterate_rel_inv (collect_turn on_save client now)
            (fun c => c <> JNull)
            (fun w w' => exists tr, trace w' = trace w ++ tr /\
                           Forall (cursor_request client) (gets tr)));
    [| | |exact Hcur|exact H].
  - intros w0. exists []. rewrite app_nil_r. split; [reflexivity|constructor].
  - intros w1 w2 w3 (tr1 & Ht1 & Hf1) (tr2 & Ht2 & Hf2). exists (tr1 ++ tr2).
    split; [now rewrite Ht2, Ht1, app_assoc|]. rewrite gets_app.
    now apply Forall_app.
  - intros s w0 c w1 Hs Hturn.
    apply collect_turn_requests in Hturn as (tr & Htr & Hc & Hg).
    split; [|exact Hc]. exists tr. split; [exact Htr|].
    destruct s; try exact Hg. now destruct Hs.
Qed.

(** Property X9.  Whatever the script and however the pass ends, its
    requests are the dated request to the audit-log URL, sent once or,
    when rate-limited, several times in a row, followed by requests
    that carry no query parameters; all of them carry the headers of
    the one client built at the start. *)
Theorem collect_dates_only_first_request on_save self w out w' :
  collect on_save self w = (out, w') ->
  exists tr k later,
    trace w' = trace w ++ tr /\
    gets tr =
      replicate (S k)
        (EGet (audit_logs_url (client_of self)) (headers (client_of self))
           (Some (created_at_params
                    (Some (default (lookback_seed w) (pointer (store w))))
                    (Some (pass_now w)))))
      ++ later /\
    Forall (cursor_request (client_of self)) later.
Proof.
  rewrite collect_eq. rewrite while_true_unfold by apply collect_turn_consumes.
  destruct (collect_turn on_save (client_of self) (pass_now w) JNull (started w))
    as [c w1] eqn:Hturn.
  apply collect_turn_requests in Hturn as (tr1 & Htr1 & Hc & Hg).
  destruct (Hg _ (started_pointer w)) as (k & Hk).
  rewrite started_trace in Htr1.
  destruct c as [[c'|[]]|e]; intros H.
  - apply cursor_loop_requests in H as (tr2 & Htr2 & Hf); [|now apply Hc].
    exists (tr1 ++ tr2), k, (gets tr2). repeat split; [|now rewrite gets_app, Hk|exact Hf].
    now rewrite Htr2, Htr1, app_assoc.
  - inversion H; subst. exists tr1, k, []. rewrite app_nil_r. now repeat split.
  - inversion H; subst. exists tr1, k, []. rewrite app_nil_r. now repeat split.
Qed.

(** ** The first call of a pass *)

(** Property X10.  Every pass begins by the debug record and the request
    of a first page whose [to_date] is the first reading of the clock
    and whose [from_date] is the stored pointer, unchanged, when there
    is one, and otherwise the second reading of the clock minus one
    day. *)
Theorem collect_first_call on_save self w out w' :
  collect on_save self w = (out, w') ->
  let now := Datetime.strftime (clock w (ticks w)) in
  let from_date :=
    match pointer (store w) with
    | Some p => p
    | None =>
        Datetime.strftime (clock w (S (ticks w)) - Datetime.timedelta 1)
    end in
  exists tr,
    trace w' = trace w ++
      ELog DEBUG "Collecting first page with provided"
        (<["to_date" := JStr now]> (<["from_date" := JStr from_date]> ∅))
      :: EGet (audit_logs_url (client_of self)) (headers (client_of self))
           (Some (created_at_params (Some from_date) (Some now)))
      :: tr.
Proof.
  intros H now from_date. rewrite collect_eq in H.
  apply collect_first_turn_starts with (p := from_date) in H.
  - rewrite started_trace in H. exact H.
  - rewrite started_pointer. subst from_date. unfold lookback_seed.
    now destruct (pointer (store w)).
Qed.

(** ** A body that is not a dictionary *)

Lemma get_audit_logs_not_a_dictionary self cur u ps lg from_date to_date r j rs w :
  (cur = JNull /\ u = audit_logs_url self /\
   ps = Some (created_at_params from_date to_date) /\
   lg = ELog DEBUG "Collecting first page with provided"
          (<["to_date" := of_opt_str to_date]>
             (<["from_date" := of_opt_str from_date]> ∅)) \/
   cur = JStr u /\ ps = None /\
   lg = ELog DEBUG "Collecting next page with provided cursor"
          (<["cursor" := JStr u]> ∅)) ->
  replies w = Answer r :: rs ->
  raise_for_status r = None ->
  resp_json r = Some j ->
  (forall fields, j <> JObj fields) ->
  get_audit_logs self cur from_date to_date w =
    (Raise AttributeError, after [lg; EGet u (headers self) ps] rs w).
Proof.
  intros Hcur Hw Hok Hjson Hj. unfold get_audit_logs.
  destruct Hcur as [(-> & -> & -> & ->)|(-> & -> & ->)];
    (unfold bind at 1; unfold bind at 1; unfold logger_log at 1;
     cbv beta iota;
     rewrite (_get_served self _ _ r j rs) by (trivial || exact Hw);
     unfold bind, dict_get, raise; simpl;
     destruct j; try (now destruct (Hj fields));
     unfold after, emit; simpl; now rewrite <- app_assoc).
Qed.

(** Property X11.  When the first reply of a pass gets through
    [raise_for_status] with a JSON body that is not a dictionary, the
    pass ends in [AttributeError] after that one request: nothing is
    saved and the store is the one the loop started with. *)
Theorem collect_body_not_a_dictionary on_save self w r j rs :
  replies w = Answer r :: rs ->
  raise_for_status r = None ->
  resp_json r = Some j ->
  (forall fields, j <> JObj fields) ->
  exists w',
    collect on_save self w = (Raise AttributeError, w') /\
    batches (trace w') = batches (trace w) /\
    length (gets (trace w')) = S (length (gets (trace w))) /\
    store w' = store (started w) /\
    replies w' = rs.
Proof.
  intros Hw Hok Hjson Hj. rewrite collect_eq.
  rewrite while_true_unfold by apply collect_turn_consumes.
  unfold collect_turn. unfold bind at 1. unfold pointer_get at 1.
  rewrite started_pointer. cbv beta iota. unfold bind at 1.
  erewrite get_audit_logs_not_a_dictionary;
    [|left; repeat split |rewrite started_replies; exact Hw|exact Hok|exact Hjson|exact Hj].
  eexists. split; [reflexivity|]. cbn [after trace store replies].
  rewrite started_trace, batches_app, gets_app, length_app. simpl.
  rewrite app_nil_r. repeat split. lia.
Qed.

(** ** Rate limits inside a pass *)

Lemma started_longest_sleep w : longest_sleep (started w) = longest_sleep w.
Proof. unfold started. now destruct (pointer (store w)). Qed.

Lemma batches_retry_rounds self u params ds :
  batches (mjoin (map (retry_round self u params) ds)) = [].
Proof. induction ds as [|d ds IH]; simpl; [reflexivity | exact IH]. Qed.

Lemma get_audit_logs_page_retrying self cur q p now rs ds r f rest w :
  retry self = true ->
  turn_request self now p cur = Some q ->
  Forall2 (asks_to_wait (longest_sleep w)) rs ds ->
  replies w = map Answer rs ++ Answer r :: rest ->
  is_page r f ->
  exists w' tr,
    get_audit_logs self cur (Some p) (Some now) w =
      (Ok (Types.mkAuditLogEntries (next_cursor f) (page_entries f)), w') /\
    trace w' = trace w ++ tr /\
    gets tr = replicate (S (length rs)) q /\
    batches tr = [] /\
    sleeps tr = ds /\
    replies w' = rest /\
    store w' = store w /\
    longest_sleep w' = longest_sleep w.
Proof.
  intros Hretry Hq Hrs Hw (Hok & Hjson). unfold get_audit_logs.
  assert (forall u ps msg extra,
            q = EGet u (headers self) ps ->
            (logger_log DEBUG msg extra ;; _get self (JStr u) ps) w =
            (Ok (Types.mkHTTPResponse (resp_headers r) (JObj f)),
             after (ELog DEBUG msg extra
                    :: mjoin (map (retry_round self u ps) ds)
                    ++ [EGet u (headers self) ps]) rest w)) as Hget.
  { intros u ps msg extra ->. unfold bind at 1. unfold logger_log at 1. cbv beta iota.
    rewrite (_get_retries self u ps rs ds (Answer r :: rest)) by trivial.
    rewrite (_get_served self u ps r (JObj f) rest) by trivial.
    unfold after, emit. simpl. now rewrite <- !app_assoc. }
  destruct cur as [| | |c| |]; try discriminate; inversion Hq; subst q; clear Hq;
    cbv zeta; unfold bind at 1;
    rewrite (Hget _ _ _ _ eq_refl);
    (eexists _, _; split; [reflexivity|]);
    cbn [after trace replies store longest_sleep];
    (split; [reflexivity|]);
    rewrite ?gets_app, ?sleeps_app, ?batches_app;
    change (gets (ELog ?a ?b ?c :: ?l)) with (gets l);
    change (sleeps (ELog ?a ?b ?c :: ?l)) with (sleeps l);
    change (batches (ELog ?a ?b ?c :: ?l)) with (batches l);
    rewrite ?gets_app, ?sleeps_app, ?batches_app,
      gets_retry_rounds, sleeps_retry_rounds;
    simpl; rewrite ?app_nil_r;
    (split; [rewrite (Forall2_length _ _ _ Hrs); symmetry; apply replicate_cons_app|]);
    (split; [apply batches_retry_rounds|]); repeat split.
Qed.

Section Retrying.

Variable on_save : Json -> Store -> Store.
Variable client : Client.
Variable now : string.
Hypothesis client_retries : retry client = true.
Hypothesis on_save_keeps : keeps_pointer on_save.

Lemma collect_turn_page_retrying cur q p rs ds r f rest w :
  turn_request client now p cur = Some q ->
  pointer (store w) = Some p ->
  Forall2 (asks_to_wait (longest_sleep w)) rs ds ->
  replies w = map Answer rs ++ Answer r :: rest ->
  is_page r f ->
  exists w' tr,
    collect_turn on_save client now cur w =
      (Ok (match next_cursor f with
           | JNull => Break tt
           | c => Continue c
           end), w') /\
    trace w' = trace w ++ tr /\
    gets tr = replicate (S (length rs)) q /\
    batches tr = [page_entries f] /\
    sleeps tr = ds /\
    replies w' = rest /\
    store w' = on_save (page_entries f) (store w) /\
    longest_sleep w' = longest_sleep w.
Proof.
  intros Hq Hp Hrs Hw Hpage.
  destruct (get_audit_logs_page_retrying client cur q p now rs ds r f rest w
              client_retries Hq Hrs Hw Hpage)
    as (w1 & tr & Hget & Htr & Hg & Hb & Hsl & Hr & Hs & Hl).
  unfold collect_turn. unfold bind at 1. unfold pointer_get at 1. rewrite Hp.
  cbv beta iota. unfold bind at 1. rewrite Hget.
  exists (emit (ESave (page_entries f))
            (set_store (on_save (page_entries f) (store w1)) w1)),
         (tr ++ [ESave (page_entries f)]).
  split.
  { unfold bind, save. cbn [Types.entries Types.cursor].
    destruct (next_cursor f); reflexivity. }
  cbn [emit set_store trace replies store longest_sleep].
  rewrite gets_app, batches_app, sleeps_app, Hg, Hb, Hsl, Htr, Hs. simpl.
  rewrite !app_nil_r, <- app_assoc. now repeat split.
Qed.

Lemma collect_loop_paged_retrying limit script fs ds :
  paged_retrying limit script fs ds ->
  forall cur q p w rest,
    longest_sleep w = limit ->
    turn_request client now p cur = Some q ->
    pointer (store w) = Some p ->
    replies w = script ++ rest ->
    exists w' tr,
      while_true (collect_turn on_save client now) cur w = (Ok tt, w') /\
      trace w' = trace w ++ tr /\
      batches tr = map page_entries fs /\
      sleeps tr = ds /\
      length (gets tr) = (length fs + length ds)%nat /\
      replies w' = rest /\
      store w' = deliver on_save (store w) (map page_entries fs).
Proof.
  induction 1 as [rs ds r f Hrs Hpage Hterm
                 | rs ds r f c script fs ds' Hrs Hpage Hnext Hc Hrest IH];
    intros cur q p w rest Hlimit Hq Hp Hw; rewrite <- Hlimit in Hrs.
  - rewrite <- app_assoc in Hw. simpl in Hw.
    destruct (collect_turn_page_retrying cur q p rs ds r f rest w Hq Hp Hrs Hw Hpage)
      as (w' & tr & Hturn & Htr & Hg & Hb & Hsl & Hr & Hs & _).
    exists w', tr. rewrite while_true_unfold by apply collect_turn_consumes.
    rewrite Hturn, (next_cursor_terminal _ Hterm). repeat split; try assumption.
    rewrite Hg, length_replicate, (Forall2_length _ _ _ Hrs). simpl. lia.
  - rewrite <- app_assoc in Hw. simpl in Hw.
    destruct (collect_turn_page_retrying cur q p rs ds r f _ w Hq Hp Hrs Hw Hpage)
      as (w1 & tr1 & Hturn & Htr1 & Hg1 & Hb1 & Hsl1 & Hr1 & Hs1 & Hl1).
    destruct (on_save_keeps (page_entries f) (store w)) as [p1 Hp1];
      [rewrite Hp; eauto|]. rewrite <- Hs1 in Hp1.
    destruct (IH (JStr c) (EGet c (headers client) None) p1 w1 rest
                (eq_trans Hl1 Hlimit) eq_refl Hp1 Hr1)
      as (w' & tr & Hloop & Htr & Hb & Hsl & Hg & Hr & Hs).
    exists w', (tr1 ++ tr). rewrite while_true_unfold by apply collect_turn_consumes.
    rewrite Hturn, (next_cursor_more _ _ Hnext Hc). repeat split.
    + exact Hloop.
    + now rewrite Htr, Htr1, app_assoc.
    + rewrite batches_app, Hb1, Hb. reflexivity.
    + rewrite sleeps_app, Hsl1, Hsl. reflexivity.
    + rewrite gets_app, length_app, Hg1, Hg, length_replicate, length_app,
        (Forall2_length _ _ _ Hrs). simpl. lia.
    + exact Hr.
    + rewrite Hs, Hs1. reflexivity.
Qed.

End Retrying.

(** Property X12.  Rate limits are absorbed wherever they fall in a
    pass: on a script of pages in which any page may come after
    rate-limited replies that ask for a wait that [time.sleep] takes
    (from 0 to the longest sleep of the platform's timer, itself no
    more than 9223372036 seconds), and for a [save] that never removes
    the pointer, the pass returns normally, saves the pages in order,
    sleeps exactly the waits asked for, in order, and sends one request
    per page and one per rate limit. *)
Theorem collect_absorbs_rate_limits on_save self w script fs ds rest :
  keeps_pointer on_save ->
  paged_retrying (longest_sleep w) script fs ds ->
  replies w = script ++ rest ->
  exists w' tr,
    collect on_save self w = (Ok tt, w') /\
    trace w' = trace w ++ tr /\
    batches tr = map page_entries fs /\
    sleeps tr = ds /\
    length (gets tr) = (length fs + length ds)%nat /\
    replies w' = rest.
Proof.
  intros Hkeep Hscript Hw. rewrite collect_eq.
  destruct (collect_loop_paged_retrying on_save (client_of self) (pass_now w)
              eq_refl Hkeep _ script fs ds Hscript JNull _ _ (started w) rest
              (started_longest_sleep w) eq_refl (started_pointer w))
    as (w' & tr & Hloop & Htr & Hb & Hsl & Hg & Hr & _).
  { now rewrite started_replies. }
  exists w', tr. rewrite started_trace in Htr. now repeat split.
Qed.

(** ** A cursor that is not a URL *)

(** Property X13.  When the first page carries a [next_page] that is
    neither a string nor null, the page is saved and the pass then
    fails on the cursor without sending a second request. *)
Theorem collect_cursor_not_a_url on_save self w r f v rest :
  keeps_pointer on_save ->
  replies w = Answer r :: rest ->
  is_page r f ->
  f !! "next_page" = Some v ->
  not_a_url v ->
  exists w' tr,
    collect on_save self w = (Raise (TransportError "invalid url"), w') /\
    trace w' = trace w ++ tr /\
    batches tr = [page_entries f] /\
    length (gets tr) = 1%nat /\
    replies w' = rest.
Proof.
  intros Hkeep Hw Hpage Hnext [Hnull Hstr]. rewrite collect_eq.
  rewrite while_true_unfold by apply collect_turn_consumes.
  destruct (collect_turn_page on_save (client_of self) (pass_now w) JNull _ _
              (started w) r rest f eq_refl (started_pointer w))
    as (w1 & tr1 & Hturn & Htr1 & _ & Hg1 & Hb1 & _ & Hr1 & _ & Hs1);
    [now rewrite started_replies | exact Hpage|].
  rewrite Hturn.
  assert (next_cursor f = v) as Hv.
  { unfold next_cursor. rewrite Hnext. simpl.
    destruct v as [| | |s| |]; try reflexivity. now destruct (Hstr s). }
  rewrite Hv.
  destruct (Hkeep (page_entries f) (store (started w))) as [p1 Hp1];
    [rewrite started_pointer; eauto|]. rewrite <- Hs1 in Hp1.
  assert (while_true (collect_turn on_save (client_of self) (pass_now w)) v w1 =
          (Raise (TransportError "invalid url"),
           emit (ELog DEBUG "Collecting next page with provided cursor"
                   (<["cursor" := v]> ∅)) w1)) as Hloop.
  { rewrite while_true_unfold by apply collect_turn_consumes.
    unfold collect_turn. unfold bind at 1. unfold pointer_get at 1. rewrite Hp1.
    cbv beta iota. unfold bind at 1. unfold get_audit_logs. unfold bind at 1.
    destruct v as [| | |s| |]; try (now destruct Hnull); try (now destruct (Hstr s));
      unfold bind at 1; unfold logger_log at 1; cbv beta iota;
      rewrite _get_not_str by discriminate; reflexivity. }
  rewrite started_trace in Htr1.
  exists (emit (ELog DEBUG "Collecting next page with provided cursor"
                  (<["cursor" := v]> ∅)) w1),
         (tr1 ++ [ELog DEBUG "Collecting next page with provided cursor"
                    (<["cursor" := v]> ∅)]).
  split; [destruct v; try (now destruct Hnull); exact Hloop|].
  cbn [emit trace replies]. rewrite Htr1, batches_app, gets_app, Hb1, Hg1.
  simpl. rewrite <- app_assoc. now repeat split.
Qed.

(** ** What a call that returns has done *)

(** Property X1.  When [_get] returns, the URL was a string and the
    script began with rate-limited replies that ask for a wait that
    [time.sleep] takes (none unless retries are on), followed by a
    reply that
    [raise_for_status] lets through: the headers and the decoded body
    returned are those of that reply, each rate limit cost one round
    of request, warning and sleep, one more request fetched the reply,
    and nothing after it was read. *)
Theorem _get_returns_first_served self url params w resp w' :
  _get self url params w = (Ok resp, w') ->
  exists u rs ds r rest,
    url = JStr u /\
    Forall2 (asks_to_wait (longest_sleep w)) rs ds /\
    (rs = [] \/ retry self = true) /\
    replies w = map Answer rs ++ Answer r :: rest /\
    raise_for_status r = None /\
    resp_json r = Some (Types.body resp) /\
    Types.headers resp = resp_headers r /\
    w' = after (mjoin (map (retry_round self u params) ds)
                ++ [EGet u (headers self) params]) rest w.
Proof. apply _get_ok_inv. Qed.

Lemma _get_returns_first_served_witness :
  exists resp w',
    _get test_client (JStr page_2_url) None retried_twice = (Ok resp, w') /\
    exists u rs ds r rest,
      JStr page_2_url = JStr u /\
      Forall2 (asks_to_wait (longest_sleep retried_twice)) rs ds /\
      (rs = [] \/ retry test_client = true) /\
      replies retried_twice = map Answer rs ++ Answer r :: rest /\
      raise_for_status r = None /\
      resp_json r = Some (Types.body resp) /\
      Types.headers resp = resp_headers r /\
      w' = after (mjoin (map (retry_round test_client u None) ds)
                  ++ [EGet u (headers test_client) None]) rest retried_twice.
Proof.
  eexists _, _. split; [vm_compute; reflexivity|].
  eapply (_get_returns_first_served test_client (JStr page_2_url) None
            retried_twice).
  vm_compute. reflexivity.
Defined.

(** Property X2.  However a call of [_get] on a string URL ends, all the
    requests it sent are the same one, with the URL, the headers and
    the parameters it was given, and it sent one more request than it
    slept. *)
Theorem _get_repeats_one_request self u params w out w' :
  _get self (JStr u) params w = (out, w') ->
  exists tr,
    trace w' = trace w ++ tr /\
    gets tr = replicate (S (length (sleeps tr))) (EGet u (headers self) params).
Proof. apply _get_requests. Qed.

Lemma _get_repeats_one_request_witness :
  exists out w',
    _get test_client (JStr page_2_url) None retry_after_a_date = (out, w') /\
    exists tr,
      trace w' = trace retry_after_a_date ++ tr /\
      gets tr = replicate (S (length (sleeps tr)))
                  (EGet page_2_url (headers test_client) None).
Proof.
  eexists _, _. split; [vm_compute; reflexivity|].
  eapply _get_repeats_one_request. vm_compute. reflexivity.
Defined.

Lemma _get_bad_retry_after_witness :
  retry test_client = true /\
  bad_wait test_longest_sleep "Wed, 21 Oct 2015 07:28:00 GMT" ValueError /\
  bad_wait test_longest_sleep "-5" ValueError /\
  bad_wait test_longest_sleep "9223372037" OverflowError /\
  bad_wait test_longest_sleep "9223372036" OSError /\
  _get test_client (JStr page_2_url) None retry_after_a_date =
    (Raise ValueError,
     after [EGet page_2_url (headers test_client) None;
            ELog WARNING "Rate-limit was exceeded during request" ∅]
       [Answer (ok_reply fixture_002)] retry_after_a_date) /\
  _get test_client (JStr page_2_url) None retry_after_negative =
    (Raise ValueError,
     after [EGet page_2_url (headers test_client) None;
            ELog WARNING "Rate-limit was exceeded during request" ∅]
       [Answer (ok_reply fixture_002)] retry_after_negative) /\
  _get test_client (JStr page_2_url) None retry_after_too_long =
    (Raise OverflowError,
     after [EGet page_2_url (headers test_client) None;
            ELog WARNING "Rate-limit was exceeded during request" ∅]
       [Answer (ok_reply fixture_002)] retry_after_too_long) /\
  _get test_client (JStr page_2_url) None retry_after_beyond_timer =
    (Raise OSError,
     after [EGet page_2_url (headers test_client) None;
            ELog WARNING "Rate-limit was exceeded during request" ∅]
       [Answer (ok_reply fixture_002)] retry_after_beyond_timer).
Proof.
  assert (bad_wait test_longest_sleep "Wed, 21 Oct 2015 07:28:00 GMT" ValueError)
    as Hdate by (apply bad_wait_literal; reflexivity).
  assert (bad_wait test_longest_sleep "-5" ValueError) as Hneg
    by (apply (bad_wait_negative _ _ (-5));
        [reflexivity | unfold SLEEP_MAX; lia]).
  assert (bad_wait test_longest_sleep "9223372037" OverflowError) as Hlong
    by (apply (bad_wait_overflow _ _ 9223372037);
        [reflexivity | unfold SLEEP_MAX; lia]).
  assert (bad_wait test_longest_sleep "9223372036" OSError) as Htimer
    by (apply (bad_wait_timer _ _ 9223372036);
        [reflexivity | unfold SLEEP_MAX; lia | unfold test_longest_sleep; lia]).
  split; [reflexivity|]. split; [exact Hdate|]. split; [exact Hneg|].
  split; [exact Hlong|]. split; [exact Htimer|].
  split; [|split; [|split]].
  - apply (_get_bad_retry_after test_client page_2_url None
             (rate_limit_reply (Some "Wed, 21 Oct 2015 07:28:00 GMT"))
             [Answer (ok_reply fixture_002)] retry_after_a_date ValueError);
      [reflexivity | reflexivity | exact Hdate | reflexivity].
  - apply (_get_bad_retry_after test_client page_2_url None
             (rate_limit_reply (Some "-5")) [Answer (ok_reply fixture_002)]
             retry_after_negative ValueError);
      [reflexivity | reflexivity | exact Hneg | reflexivity].
  - apply (_get_bad_retry_after test_client page_2_url None
             (rate_limit_reply (Some "9223372037")) [Answer (ok_reply fixture_002)]
             retry_after_too_long OverflowError);
      [reflexivity | reflexivity | exact Hlong | reflexivity].
  - apply (_get_bad_retry_after test_client page_2_url None
             (rate_limit_reply (Some "9223372036")) [Answer (ok_reply fixture_002)]
             retry_after_beyond_timer OSError);
      [reflexivity | reflexivity | exact Htimer | reflexivity].
Defined.

Lemma _get_only_retries_rate_limits_witness :
  _get test_client (JStr page_2_url) None connection_lost =
    (Raise (TransportError "ConnectionError"),
     after [EGet page_2_url (headers test_client) None]
       [Answer (ok_reply fixture_002)] connection_lost) /\
  _get no_retry_client (JStr page_2_url) None not_json =
    (Raise JSONDecodeError,
     after [EGet page_2_url (headers no_retry_client) None]
       [Answer (ok_reply fixture_002)] not_json).
Proof.
  split.
  - apply (proj1 (_get_only_retries_rate_limits test_client page_2_url None
                    connection_lost) "ConnectionError"
             [Answer (ok_reply fixture_002)]).
    reflexivity.
  - apply (proj2 (_get_only_retries_rate_limits no_retry_client page_2_url None
                    not_json) (bare_reply 200) [Answer (ok_reply fixture_002)]);
      reflexivity.
Defined.

Lemma _get_rate_limit_exception_witness :
  exists w',
    _get no_retry_client (JStr page_2_url) None rate_limited_once =
      (Raise (RateLimitException (rate_limit_reply (Some "66"))), w') /\
    retry no_retry_client = false /\
    status_code (rate_limit_reply (Some "66")) = 429 /\
    exists u,
      JStr page_2_url = JStr u /\
      replies rate_limited_once =
        Answer (rate_limit_reply (Some "66")) :: replies w' /\
      trace w' = trace rate_limited_once ++
        [EGet u (headers no_retry_client) None;
         ELog WARNING "Rate-limit was exceeded during request" ∅] /\
      store w' = store rate_limited_once.
Proof.
  eexists. split; [vm_compute; reflexivity|].
  eapply _get_rate_limit_exception. vm_compute. reflexivity.
Defined.

(** Property X6.  When [get_audit_logs] returns, the cursor it reports is
    never the empty string, and what it reports comes from one reply:
    the script began with rate-limited replies followed by a reply
    that [raise_for_status] lets through and whose body is a
    dictionary; the cursor is the [next_page] of that dictionary (none
    when absent, empty or null), the entries are its [audit_logs] (the
    empty list when absent), and nothing after that reply was read. *)
Theorem get_audit_logs_returns_a_page self cur from_date to_date w log w' :
  get_audit_logs self cur from_date to_date w = (Ok log, w') ->
  Types.cursor log <> JStr "" /\
  exists rs ds r fields,
    Forall2 (asks_to_wait (longest_sleep w)) rs ds /\
    replies w = map Answer rs ++ Answer r :: replies w' /\
    is_page r fields /\
    Types.cursor log = next_cursor fields /\
    Types.entries log = page_entries fields.
Proof. apply get_audit_logs_ok_inv. Qed.

Lemma get_audit_logs_returns_a_page_witness :
  exists log w',
    get_audit_logs test_client JNull (Some "2023-12-06T00:00:00Z")
      (Some "2023-12-08T09:30:00Z") retried_twice = (Ok log, w') /\
    Types.cursor log <> JStr "" /\
    exists rs ds r fields,
      Forall2 (asks_to_wait (longest_sleep retried_twice)) rs ds /\
      replies retried_twice = map Answer rs ++ Answer r :: replies w' /\
      is_page r fields /\
      Types.cursor log = next_cursor fields /\
      Types.entries log = page_entries fields.
Proof.
  eexists _, _. split; [vm_compute; reflexivity|].
  eapply (get_audit_logs_returns_a_page test_client JNull
            (Some "2023-12-06T00:00:00Z") (Some "2023-12-08T09:30:00Z")
            retried_twice).
  vm_compute. reflexivity.
Defined.

(** Property X7.  However [get_audit_logs] ends, it has saved nothing and
    has left the store, hence the pointer, and the clock as they were;
    the replies it read were taken from the front of the script. *)
Theorem get_audit_logs_leaves_store self cur from_date to_date w out w' :
  get_audit_logs self cur from_date to_date w = (out, w') ->
  exists tr used,
    trace w' = trace w ++ tr /\
    replies w = used ++ replies w' /\
    batches tr = [] /\
    store w' = store w /\
    clock w' = clock w /\
    ticks w' = ticks w.
Proof. apply quiet_get_audit_logs. Qed.

Lemma get_audit_logs_leaves_store_witness :
  exists out w',
    get_audit_logs test_client (JStr page_2_url) None None failing_on_page_2 =
      (out, w') /\
    exists tr used,
      trace w' = trace failing_on_page_2 ++ tr /\
      replies failing_on_page_2 = used ++ replies w' /\
      batches tr = [] /\
      store w' = store failing_on_page_2 /\
      clock w' = clock failing_on_page_2 /\
      ticks w' = ticks failing_on_page_2.
Proof.
  eexists _, _. split; [vm_compute; reflexivity|].
  eapply (get_audit_logs_leaves_store test_client (JStr page_2_url) None None
            failing_on_page_2).
  vm_compute. reflexivity.
Defined.

(** ** Runs of whole passes *)

Lemma collect_saves_what_it_reads_witness :
  exists out w',
    collect sink_save test_connector failing_on_page_2 = (out, w') /\
    exists tr used pages,
      trace w' = trace failing_on_page_2 ++ tr /\
      replies failing_on_page_2 = used ++ replies w' /\
      batches tr = map (fun p => page_entries (snd p)) pages /\
      Forall (fun p => is_page (fst p) (snd p)) pages /\
      sublist (map (fun p => Answer (fst p)) pages) used.
Proof.
  eexists _, _. split; [vm_compute; reflexivity|].
  eapply (collect_saves_what_it_reads sink_save test_connector
            failing_on_page_2).
  vm_compute. reflexivity.
Defined.

Lemma collect_dates_only_first_request_witness :
  exists out w',
    collect sink_save test_connector rate_limited_pages = (out, w') /\
    exists tr k later,
      trace w' = trace rate_limited_pages ++ tr /\
      gets tr =
        replicate (S k)
          (EGet (audit_logs_url test_client) (headers test_client)
             (Some (created_at_params (Some "2023-12-06T00:00:00Z")
                      (Some "2023-12-08T09:30:00Z"))))
        ++ later /\
      Forall (cursor_request test_client) later.
Proof.
  eexists _, _. split; [vm_compute; reflexivity|].
  eapply (collect_dates_only_first_request sink_save test_connector
            rate_limited_pages).
  vm_compute. reflexivity.
Defined.

Lemma collect_first_call_witness :
  exists out w' tr,
    collect sink_save test_connector two_pages = (out, w') /\
    trace w' = trace two_pages ++
      ELog DEBUG "Collecting first page with provided"
        (<["to_date" := JStr "2023-12-08T09:30:00Z"]>
           (<["from_date" := JStr "2023-12-06T00:00:00Z"]> ∅))
      :: EGet (audit_logs_url test_client) (headers test_client)
           (Some (created_at_params (Some "2023-12-06T00:00:00Z")
                    (Some "2023-12-08T09:30:00Z")))
      :: tr.
Proof.
  destruct (collect sink_save test_connector two_pages) as [out w'] eqn:Hrun.
  destruct (collect_first_call sink_save test_connector two_pages out w' Hrun)
    as (tr & Htr).
  exists out, w', tr. split; [reflexivity | exact Htr].
Defined.

Lemma collect_body_not_a_dictionary_witness :
  raise_for_status (mkResponse 200 ∅ (Some (JArr []))) = None /\
  exists w',
    collect sink_save test_connector list_body = (Raise AttributeError, w') /\
    batches (trace w') = batches (trace list_body) /\
    length (gets (trace w')) = S (length (gets (trace list_body))) /\
    store w' = store (started list_body) /\
    replies w' = [Answer (ok_reply fixture_002)].
Proof.
  split; [reflexivity|].
  apply (collect_body_not_a_dictionary sink_save test_connector list_body
           (mkResponse 200 ∅ (Some (JArr []))) (JArr []));
    try reflexivity.
  intros fields. discriminate.
Defined.

Lemma collect_absorbs_rate_limits_witness :
  keeps_pointer sink_save /\
  paged_retrying (longest_sleep rate_limited_pages) (replies rate_limited_pages)
    [fixture_001; fixture_002] [66; 1] /\
  exists w' tr,
    collect sink_save test_connector rate_limited_pages = (Ok tt, w') /\
    trace w' = trace rate_limited_pages ++ tr /\
    batches tr = [page_entries fixture_001; page_entries fixture_002] /\
    sleeps tr = [66; 1] /\
    length (gets tr) = 4%nat /\
    replies w' = [].
Proof.
  assert (Forall2 (asks_to_wait (longest_sleep rate_limited_pages))
            [rate_limit_reply (Some "66")] [66]) as Hrs1.
  { constructor; [|constructor].
    split; [reflexivity|]. split; [vm_compute; intuition discriminate|].
    right. exists "66". now split. }
  assert (Forall2 (asks_to_wait (longest_sleep rate_limited_pages))
            [rate_limit_reply None] [1]) as Hrs2.
  { constructor; [|constructor].
    split; [reflexivity|]. split; [vm_compute; intuition discriminate|].
    left. now split. }
  assert (paged_retrying (longest_sleep rate_limited_pages)
            (replies rate_limited_pages)
            [fixture_001; fixture_002] [66; 1]) as Hscript.
  { apply (paged_retrying_more _ [rate_limit_reply (Some "66")] [66]
             (ok_reply fixture_001) fixture_001 page_2_url
             (map Answer [rate_limit_reply None] ++ [Answer (ok_reply fixture_002)])
             [fixture_002] [1] Hrs1);
      [split; reflexivity | reflexivity | discriminate|].
    apply (paged_retrying_last _ [rate_limit_reply None] [1]
             (ok_reply fixture_002) fixture_002 Hrs2);
      [split; reflexivity | left; reflexivity]. }
  split; [exact keeps_pointer_sink_save|]. split; [exact Hscript|].
  apply (collect_absorbs_rate_limits sink_save test_connector rate_limited_pages
           _ _ _ [] keeps_pointer_sink_save Hscript).
  reflexivity.
Defined.

Lemma collect_cursor_not_a_url_witness :
  keeps_pointer sink_save /\
  is_page (ok_reply numeric_cursor_page) numeric_cursor_page /\
  numeric_cursor_page !! "next_page" = Some (JNum 2) /\
  not_a_url (JNum 2) /\
  exists w' tr,
    collect sink_save test_connector numeric_cursor =
      (Raise (TransportError "invalid url"), w') /\
    trace w' = trace numeric_cursor ++ tr /\
    batches tr = [page_entries numeric_cursor_page] /\
    length (gets tr) = 1%nat /\
    replies w' = [Answer (ok_reply fixture_002)].
Proof.
  assert (not_a_url (JNum 2)) as Hnot by (split; [|intros u]; discriminate).
  split; [exact keeps_pointer_sink_save|]. split; [split; reflexivity|].
  split; [reflexivity|]. split; [exact Hnot|].
  apply (collect_cursor_not_a_url sink_save test_connector numeric_cursor
           (ok_reply numeric_cursor_page) numeric_cursor_page (JNum 2)
           [Answer (ok_reply fixture_002)] keeps_pointer_sink_save);
    [reflexivity | split; reflexivity | reflexivity | exact Hnot].
Defined.
